(** * hifi: the metavoxels Bitstream dictionary coder and the gpu Framebuffer

    A shallow embedding of

    - [libraries/metavoxels/src/Bitstream.h]: the [RepeatedValueStreamer<T>]
      template (constructor, [getAndResetTransientOffsets], [operator<<],
      [operator>>]) and the private state of [Bitstream];
    - [libraries/gpu/src/gpu/Framebuffer.cpp]: the render-buffer bookkeeping
      of [Framebuffer].

    [QHash<K, V>] is a [gmap K V]; [std::vector] is a [list] indexed with
    stdpp's lookup and insert; a shared pointer that may be null is an
    [option]; C++ [int] and [uint32] are [Z], with the wrap-around of their
    width written out where the code computes with them; the [uint16] sizes
    are only copied and compared. *)

From stdpp Require Import gmap strings list.

Local Open Scope Z_scope.

(** ** Machine integers *)

Module MachineInt.

Definition INT_MAX : Z := 2 ^ 31 - 1.
Definition UINT32_MAX : Z := 2 ^ 32 - 1.

(** A C++ [int]: 32 bits, two's complement.  Signed overflow is undefined
    in C++; the model writes out the wrap-around of the hardware, and the
    theorems that depend on a sum say when it stays in range. *)
Definition wrap_int (z : Z) : Z := (z + 2 ^ 31) mod 2 ^ 32 - 2 ^ 31.

(** A [uint32]: arithmetic modulo 2^32. *)
Definition wrap_uint32 (z : Z) : Z := z mod 2 ^ 32.

End MachineInt.

Import MachineInt.

(** ** RepeatedValueStreamer<T> (Bitstream.h) *)

(** What a streamer hands to, or asks of, the stream it is built on.  The
    template never touches bits itself: [_idStreamer << id] passes an
    identifier to the ID coder and [_stream << value] passes the value to the
    Bitstream operator of its type.  A wire is the sequence of these two kinds
    of transfers, in order. *)
Inductive Item (T : Type) : Type :=
  | ItemID (id : Z)
  | ItemValue (value : T).

Arguments ItemID {T} id.
Arguments ItemValue {T} value.

(** The data members of the template that are tables and counters.  The
    two others are [_stream], a reference to the Bitstream, and
    [_idStreamer], an [IDStreamer] held by value with a state of its own
    ([_bits]) that [operator<<] and [operator>>] both use: where bits are
    counted or read, the state of the ID coder is carried beside the streamer
    (Section Codec below, and the Bitstream). *)
Record RepeatedValueStreamer (T : Type) `{Countable T} : Type :=
  MkRepeatedValueStreamer {
    _lastPersistentID : Z;
    _lastTransientOffset : Z;
    _persistentIDs : gmap T Z;
    _transientOffsets : gmap T Z;
    _values : gmap Z T
  }.

Arguments MkRepeatedValueStreamer {T _ _} _ _ _ _ _.
Arguments _lastPersistentID {T _ _} _.
Arguments _lastTransientOffset {T _ _} _.
Arguments _persistentIDs {T _ _} _.
Arguments _transientOffsets {T _ _} _.
Arguments _values {T _ _} _.

Module RVS.
Section Streamer.

Context {T : Type} `{Countable T}.

Abbreviation streamer := (RepeatedValueStreamer T).
Abbreviation wire := (list (Item T)).

(** [QHash<T, int>::value(key)]: the stored integer, or a default
    constructed one (zero) when the key is absent. *)
Definition hash_value (h : gmap T Z) (key : T) : Z := default 0 (h !! key).

(** The constructor: both counters zero, the three tables empty. *)
Definition construct : streamer :=
  MkRepeatedValueStreamer 0 0 ∅ ∅ ∅.

(** [getAndResetTransientOffsets]: swaps the transient table with an empty
    one, zeroes the counter, returns the old table. *)
Definition getAndResetTransientOffsets (s : streamer) : gmap T Z * streamer :=
  let transientOffsets := _transientOffsets s in
  (transientOffsets,
   MkRepeatedValueStreamer (_lastPersistentID s) 0 (_persistentIDs s) ∅ (_values s)).

(** [operator<<]: the streamer after the call and the transfers it made, in
    order.  [_transientOffsets[value]] creates the entry when it is missing,
    with value zero, and [offset] is a reference to it: in the first branch
    the entry ends up holding the incremented counter. *)
Definition op_write (s : streamer) (value : T) : streamer * wire :=
  let id := hash_value (_persistentIDs s) value in
  if decide (id = 0) then
    let offset := hash_value (_transientOffsets s) value in
    if decide (offset = 0) then
      let offset' := wrap_int (_lastTransientOffset s + 1) in
      (MkRepeatedValueStreamer (_lastPersistentID s) offset' (_persistentIDs s)
         (<[value := offset']> (_transientOffsets s)) (_values s),
       [ItemID (wrap_int (_lastPersistentID s + offset')); ItemValue value])
    else
      (s, [ItemID (wrap_int (_lastPersistentID s + offset))])
  else
    (s, [ItemID id]).

(** [operator>>], over any source [S] from which [_idStreamer >> id] takes
    an identifier and [_stream >> value] takes a value.  [None] when the
    source fails to give what is asked of it. *)
Definition op_read_from {S : Type}
    (take_id : S → option (Z * S)) (take_value : S → option (T * S))
    (s : streamer) (src : S) : option (T * streamer * S) :=
  match take_id src with
  | None => None
  | Some (id, src') =>
      match _values s !! id with
      | None =>
          match take_value src' with
          | None => None
          | Some (value, src'') =>
              Some (value,
                    MkRepeatedValueStreamer (_lastPersistentID s) (_lastTransientOffset s)
                      (_persistentIDs s) (_transientOffsets s)
                      (<[id := value]> (_values s)),
                    src'')
          end
      | Some value => Some (value, s, src')
      end
  end.

(** A run of [n] calls of [operator>>] on one streamer. *)
Fixpoint read_all_from {S : Type}
    (take_id : S → option (Z * S)) (take_value : S → option (T * S))
    (s : streamer) (src : S) (n : nat) : option (list T * streamer * S) :=
  match n with
  | O => Some ([], s, src)
  | S n' =>
      match op_read_from take_id take_value s src with
      | None => None
      | Some (v, s1, src1) =>
          match read_all_from take_id take_value s1 src1 n' with
          | None => None
          | Some (vs, s2, src2) => Some (v :: vs, s2, src2)
          end
      end
  end.

(** A run of [operator<<] calls on one streamer, and the transfers made. *)
Fixpoint write_all (s : streamer) (vs : list T) : streamer * wire :=
  match vs with
  | [] => (s, [])
  | v :: vs' =>
      let '(s1, out1) := op_write s v in
      let '(s2, out2) := write_all s1 vs' in
      (s2, out1 ++ out2)
  end.

(** *** Reading from a wire of transfers *)

(** The next transfer, when it is an identifier; when it is a value. *)
Definition take_id (w : wire) : option (Z * wire) :=
  match w with
  | ItemID id :: w' => Some (id, w')
  | _ => None
  end.

Definition take_value (w : wire) : option (T * wire) :=
  match w with
  | ItemValue value :: w' => Some (value, w')
  | _ => None
  end.

Definition op_read (s : streamer) (w : wire) : option (T * streamer * wire) :=
  op_read_from take_id take_value s w.

Definition read_all (s : streamer) (w : wire) (n : nat)
    : option (list T * streamer * wire) :=
  read_all_from take_id take_value s w n.

(** *** Reading from bits *)

Section Codec.

(** The ID coder and the Bitstream operators of [T] have their bodies in
    Bitstream.cpp, which is not among the sources: they are parameters.
    [IdState] is what an [IDStreamer] keeps between calls (its [_bits]);
    [id_write] is [IDStreamer::operator<<], [id_read] is
    [IDStreamer::operator>>], [value_write] and [value_read] are
    [Bitstream::operator<<] and [operator>>] at type [T]. *)
Variable IdState : Type.
Variable id_write : IdState → Z → IdState * list bool.
Variable id_read : IdState → list bool → option (Z * IdState * list bool).
Variable value_write : T → list bool.
Variable value_read : list bool → option (T * list bool).

(** The bits a run of transfers puts on the stream, and the state the ID
    coder is left in. *)
Fixpoint encode (c : IdState) (w : wire) : IdState * list bool :=
  match w with
  | [] => (c, [])
  | ItemID id :: w' =>
      let '(c1, bits1) := id_write c id in
      let '(c2, bits2) := encode c1 w' in
      (c2, bits1 ++ bits2)
  | ItemValue value :: w' =>
      let '(c2, bits2) := encode c w' in
      (c2, value_write value ++ bits2)
  end.

(** A source of bits: the reader's ID coder and the bits not yet read. *)
Definition bits_take_id (src : IdState * list bool) : option (Z * (IdState * list bool)) :=
  match id_read src.1 src.2 with
  | None => None
  | Some (id, c, bits) => Some (id, (c, bits))
  end.

Definition bits_take_value (src : IdState * list bool) : option (T * (IdState * list bool)) :=
  match value_read src.2 with
  | None => None
  | Some (value, bits) => Some (value, (src.1, bits))
  end.

Definition read_all_bits (s : streamer) (c : IdState) (bits : list bool) (n : nat)
    : option (list T * streamer * (IdState * list bool)) :=
  read_all_from bits_take_id bits_take_value s (c, bits) n.

(** The states an ID coder started in [c0] goes through when it is fed
    identifiers of the pattern it is made for (Bitstream.h: each is one that
    has been sent before, or one more than the highest sent so far, starting
    at zero), with the highest identifier so far. *)
Inductive fed (c0 : IdState) : IdState → Z → Prop :=
  | fed_start : fed c0 c0 0
  | fed_write c h id :
      fed c0 c h → 0 ≤ id ≤ h + 1 → id ≤ INT_MAX →
      fed c0 (id_write c id).1 (Z.max h id).

(** The ID coder round-trips faithfully: an identifier of the pattern is
    read back as it was written, the reader's coder ends in the state of the
    writer's, and what follows on the stream is left alone. *)
Definition faithful_id_coder (c0 : IdState) : Prop :=
  ∀ c h id rest,
    fed c0 c h → 0 ≤ id ≤ h + 1 → id ≤ INT_MAX →
    id_read c ((id_write c id).2 ++ rest) = Some (id, (id_write c id).1, rest).

(** The value encoding round-trips faithfully. *)
Definition faithful_value_encoding : Prop :=
  ∀ value rest, value_read (value_write value ++ rest) = Some (value, rest).

End Codec.

(** *** Measures and invariants *)

(** The values of a sequence in the order of their first occurrence. *)
Definition first_seen_from (seen : list T) (vs : list T) : list T :=
  fold_left (λ acc v, if decide (v ∈ acc) then acc else acc ++ [v]) vs seen.

Definition first_seen (vs : list T) : list T := first_seen_from [] vs.

(** The size of a wire in bits, for a given size of each transfer. *)
Definition wire_bits (id_bits : Z → nat) (value_bits : T → nat) (w : wire) : nat :=
  sum_list_with (λ i, match i with
                      | ItemID id => id_bits id
                      | ItemValue v => value_bits v
                      end) w.

(** The identifiers on a wire follow the pattern of the ID coder, [h]
    being the highest identifier before the wire. *)
Fixpoint conforming (h : Z) (w : wire) : Prop :=
  match w with
  | [] => True
  | ItemID id :: w' => 0 ≤ id ≤ h + 1 ∧ id ≤ INT_MAX ∧ conforming (Z.max h id) w'
  | ItemValue _ :: w' => conforming h w'
  end.

(** How many identifiers, and how many full values, travel on a wire. *)
Definition count_ids (w : wire) : nat := wire_bits (λ _, 1%nat) (λ _, 0%nat) w.
Definition count_values (w : wire) : nat := wire_bits (λ _, 0%nat) (λ _, 1%nat) w.

(** What holds of every streamer the operations above can produce from a
    constructed one: the counters are not negative, the largest combined ID
    is an [int], and the transient table holds the offsets handed out so
    far, all between one and the counter. *)
Definition well_formed (s : streamer) : Prop :=
  0 ≤ _lastPersistentID s ∧
  0 ≤ _lastTransientOffset s ∧
  _lastPersistentID s + _lastTransientOffset s ≤ INT_MAX ∧
  ∀ v o, _transientOffsets s !! v = Some o → 1 ≤ o ≤ _lastTransientOffset s.

(** One more transient offset can be handed out within the range of [int]. *)
Definition has_room (s : streamer) : Prop :=
  _lastPersistentID s + _lastTransientOffset s < INT_MAX.

(** The streamers a caller can get: a constructed one, and what writes
    (while the counter has room), reads and harvests make of it. *)
Inductive reachable : streamer → Prop :=
  | reachable_construct : reachable construct
  | reachable_write s v :
      reachable s → has_room s → reachable (op_write s v).1
  | reachable_read s w v s' w' :
      reachable s → op_read s w = Some (v, s', w') → reachable s'
  | reachable_reset s :
      reachable s → reachable (getAndResetTransientOffsets s).2.

(** A writer and a reader are in lock-step when the reader's cache is the
    writer's transient table turned around: the value with offset [o] sits
    in the cache under the combined ID, and the cache holds nothing else. *)
Definition lock_step (w r : streamer) : Prop :=
  (∀ v, hash_value (_persistentIDs w) v = 0) ∧
  (∀ v o, _transientOffsets w !! v = Some o →
          _values r !! (_lastPersistentID w + o) = Some v) ∧
  (∀ id v, _values r !! id = Some v →
           _transientOffsets w !! v = Some (id - _lastPersistentID w)).

(** The transient table numbers the values of [seen] from one, in order. *)
Definition numbered (seen : list T) (s : streamer) : Prop :=
  _lastTransientOffset s = Z.of_nat (length seen) ∧
  ∀ v o, _transientOffsets s !! v = Some o ↔
         ∃ n : nat, seen !! n = Some v ∧ o = Z.of_nat (S n).

End Streamer.
End RVS.

(** ** IDStreamer (declared in Bitstream.h, body in Bitstream.cpp) *)

Module IDStreamer.

(** Modelled from the spec: the bodies of [IDStreamer::operator<<] and
    [IDStreamer::operator>>] are not among the sources (Bitstream.h only
    declares them, with the private member [_bits]).  The spec's ID coder
    keeps [highestAssignedId], encodes with [ceil(log2(highestAssignedId +
    2))] bits, zero bits while nothing is assigned, and advances the counter
    when the identifier is [highestAssignedId + 1].  The state before any
    identifier is assigned is the integer -1, for which the width formula
    gives zero. *)
Definition initial : Z := -1.

(** Modelled from the spec: the width in bits, [ceil(log2(highest + 2))]. *)
Definition width (highestAssignedId : Z) : Z := Z.log2_up (highestAssignedId + 2).

(** Modelled from the spec: the advance rule shared by writer and reader. *)
Definition advance (highestAssignedId id : Z) : Z :=
  if decide (id = highestAssignedId + 1) then highestAssignedId + 1
  else highestAssignedId.

(** The [n] low-order bits of [z], least significant first, and back. *)
Definition to_bits (n : nat) (z : Z) : list bool :=
  map (λ i, Z.testbit z (Z.of_nat i)) (seq 0 n).

Fixpoint of_bits (bs : list bool) : Z :=
  match bs with
  | [] => 0
  | b :: bs' => Z.b2z b + 2 * of_bits bs'
  end.

(** Modelled from the spec: [write(id)] of the ID coder. *)
Definition write (highestAssignedId id : Z) : Z * list bool :=
  (advance highestAssignedId id, to_bits (Z.to_nat (width highestAssignedId)) id).

(** Modelled from the spec: [read() -> id]; [None] when the stream holds
    fewer bits than the width. *)
Definition read (highestAssignedId : Z) (bits : list bool) : option (Z * Z * list bool) :=
  let n := Z.to_nat (width highestAssignedId) in
  if decide (n ≤ length bits)%nat then
    let id := of_bits (take n bits) in
    Some (id, advance highestAssignedId id, drop n bits)
  else None.

(** The widths used by a run of writes. *)
Fixpoint write_widths (highestAssignedId : Z) (ids : list Z) : list nat :=
  match ids with
  | [] => []
  | id :: ids' =>
      let '(h', bits) := write highestAssignedId id in
      length bits :: write_widths h' ids'
  end.

(** The widths used by a run of [n] reads. *)
Fixpoint read_widths (highestAssignedId : Z) (bits : list bool) (n : nat) : option (list nat) :=
  match n with
  | O => Some []
  | S n' =>
      match read highestAssignedId bits with
      | None => None
      | Some (_, h', rest) =>
          match read_widths h' rest n' with
          | None => None
          | Some ws => Some ((length bits - length rest)%nat :: ws)
          end
      end
  end.

(** What a run of writes puts on the stream. *)
Fixpoint write_bits (highestAssignedId : Z) (ids : list Z) : list bool :=
  match ids with
  | [] => []
  | id :: ids' =>
      let '(h', bits) := write highestAssignedId id in
      bits ++ write_bits h' ids'
  end.

End IDStreamer.

(** ** Bitstream (Bitstream.h): private state and the attribute streamer *)

Module Bitstream.

(** [QByteArray]: a sequence of bytes. *)
Abbreviation QByteArray := string.

(** [AttributePointer], a [QSharedPointer<Attribute>]: hashed and compared
    by the address it holds, zero for the null pointer. *)
Abbreviation AttributePointer := N.

Section Operators.

(** The bodies of the operators of [IDStreamer] and of [Bitstream] are in
    Bitstream.cpp, which is not among the sources: they are parameters.
    [Transport] stands for the members [_underlying], [_byte] and
    [_position] of a Bitstream, which only those bodies touch, and [IdState]
    for the member [_bits] of an [IDStreamer].  [id_write] and [id_read] are
    [IDStreamer::operator<<] and [operator>>]: they act on the [_bits] of
    the IDStreamer and, through its reference to the Bitstream, on the
    transport.  [attribute_write] and [attribute_read] are
    [Bitstream::operator<<] and [operator>>] at [AttributePointer], taken to
    act on the transport.  The operators are declared to return references,
    with no error result; [None] stands for a read the transport does not
    serve. *)
Variable Transport : Type.
Variable IdState : Type.
Variable id_write : IdState → Transport → Z → IdState * Transport.
Variable id_read : IdState → Transport → option (Z * IdState * Transport).
Variable attribute_write : Transport → AttributePointer → Transport.
Variable attribute_read : Transport → option (AttributePointer * Transport).

(** The private members.  Beside its tables, each [RepeatedValueStreamer]
    member holds its member [_idStreamer], an [IDStreamer] of its own held by
    value, whose [_bits] its two operators share.  There is no member that
    records whether the instance reads or writes. *)
Record Bitstream : Type := MkBitstream {
  _transport : Transport;
  _classNameStreamer : RepeatedValueStreamer QByteArray;
  _classNameStreamer_idStreamer : IdState;
  _attributeStreamer : RepeatedValueStreamer AttributePointer;
  _attributeStreamer_idStreamer : IdState
}.

(** [getAttributeStreamer]: a reference to the member, tables and ID coder,
    so that what the caller does to the streamer happens to the Bitstream. *)
Definition getAttributeStreamer (bs : Bitstream)
    : RepeatedValueStreamer AttributePointer * IdState :=
  (_attributeStreamer bs, _attributeStreamer_idStreamer bs).

(** The transfers of an [operator<<] carried out, in order:
    [_idStreamer << id] on the ID coder of the streamer and the transport,
    [_stream << value] on the transport. *)
Fixpoint transfer (c : IdState) (t : Transport) (w : list (Item AttributePointer))
    : IdState * Transport :=
  match w with
  | [] => (c, t)
  | ItemID id :: w' => let '(c1, t1) := id_write c t id in transfer c1 t1 w'
  | ItemValue value :: w' => transfer c (attribute_write t value) w'
  end.

(** [bitstream.getAttributeStreamer() << attribute]: a write operation. *)
Definition write_attribute (bs : Bitstream) (attribute : AttributePointer) : Bitstream :=
  let '(s, c0) := getAttributeStreamer bs in
  let '(s', out) := RVS.op_write s attribute in
  let '(c, t) := transfer c0 (_transport bs) out in
  MkBitstream t (_classNameStreamer bs) (_classNameStreamer_idStreamer bs) s' c.

(** What [operator>>] of the attribute streamer reads from: its ID coder
    and the transport. *)
Definition take_id (src : IdState * Transport) : option (Z * (IdState * Transport)) :=
  match id_read src.1 src.2 with
  | None => None
  | Some (id, c, t) => Some (id, (c, t))
  end.

Definition take_attribute (src : IdState * Transport)
    : option (AttributePointer * (IdState * Transport)) :=
  match attribute_read src.2 with
  | None => None
  | Some (value, t) => Some (value, (src.1, t))
  end.

(** [bitstream.getAttributeStreamer() >> attribute]: a read operation. *)
Definition read_attribute (bs : Bitstream) : option (AttributePointer * Bitstream) :=
  let '(s, c0) := getAttributeStreamer bs in
  match RVS.op_read_from take_id take_attribute s (c0, _transport bs) with
  | None => None
  | Some (attribute, s', (c, t)) =>
      Some (attribute,
            MkBitstream t (_classNameStreamer bs) (_classNameStreamer_idStreamer bs) s' c)
  end.

(** A Bitstream whose two streamers are as the constructor of the template
    leaves them, on a transport and with ID coders in the states the
    constructors of Bitstream.cpp leave them in. *)
Definition construct (t : Transport) (c : IdState) : Bitstream :=
  MkBitstream t RVS.construct c RVS.construct c.

End Operators.

Arguments MkBitstream {Transport IdState} _ _ _ _ _.
Arguments _transport {Transport IdState} _.
Arguments _classNameStreamer {Transport IdState} _.
Arguments _classNameStreamer_idStreamer {Transport IdState} _.
Arguments _attributeStreamer {Transport IdState} _.
Arguments _attributeStreamer_idStreamer {Transport IdState} _.
Arguments getAttributeStreamer {Transport IdState} _.
Arguments transfer {Transport IdState} _ _ _ _ _.
Arguments write_attribute {Transport IdState} _ _ _ _.
Arguments take_id {Transport IdState} _ _.
Arguments take_attribute {Transport IdState} _ _.
Arguments read_attribute {Transport IdState} _ _ _.
Arguments construct {Transport IdState} _ _.

End Bitstream.

(** ** Framebuffer (Framebuffer.cpp) *)

Module Texture.

(** [Texture::Type].  Texture.h is not among the sources; the code below
    only tells [TEX_1D] from the other types. *)
Inductive Type_ : Type := TEX_1D | TEX_2D | TEX_3D | TEX_CUBE.

#[global] Instance Type_eq_dec : EqDecision Type_.
Proof. solve_decision. Defined.

(** What Framebuffer.cpp asks of a texture: its four getters. *)
Record Texture : Type := MkTexture {
  getType : Type_;
  getWidth : Z;
  getHeight : Z;
  getNumSamples : Z
}.

End Texture.

Module Swapchain.

(** What Framebuffer.cpp asks of a swapchain. *)
Record Swapchain : Type := MkSwapchain {
  getWidth : Z;
  getHeight : Z;
  getNumSamples : Z;
  getFrameCount : Z
}.

End Swapchain.

(** [TexturePointer] and [SwapchainPointer]: shared pointers, [None] when
    null. *)
Abbreviation TexturePointer := (option Texture.Texture).
Abbreviation SwapchainPointer := (option Swapchain.Swapchain).

Module Framebuffer.

(** The data members Framebuffer.cpp reads and writes. *)
Record Framebuffer : Type := MkFramebuffer {
  _swapchain : SwapchainPointer;
  _frameCount : Z;
  _renderBuffers : list TexturePointer;
  _renderBuffersSubresource : list Z;
  _depthStencilBuffer : TexturePointer;
  _depthStencilBufferSubresource : Z;
  _buffersMask : Z;
  _width : Z;
  _height : Z;
  _numSamples : Z
}.

(** [std::vector::resize(n, d)]: cut to [n] elements, or fill up with [d]. *)
Definition resize {A : Type} (n : nat) (d : A) (v : list A) : list A :=
  take n v ++ replicate (n - length v) d.

Definition set_renderBuffers (fb : Framebuffer) (v : list TexturePointer) : Framebuffer :=
  MkFramebuffer (_swapchain fb) (_frameCount fb) v (_renderBuffersSubresource fb)
    (_depthStencilBuffer fb) (_depthStencilBufferSubresource fb) (_buffersMask fb)
    (_width fb) (_height fb) (_numSamples fb).

Definition set_renderBuffersSubresource (fb : Framebuffer) (v : list Z) : Framebuffer :=
  MkFramebuffer (_swapchain fb) (_frameCount fb) (_renderBuffers fb) v
    (_depthStencilBuffer fb) (_depthStencilBufferSubresource fb) (_buffersMask fb)
    (_width fb) (_height fb) (_numSamples fb).

Definition set_buffersMask (fb : Framebuffer) (m : Z) : Framebuffer :=
  MkFramebuffer (_swapchain fb) (_frameCount fb) (_renderBuffers fb)
    (_renderBuffersSubresource fb) (_depthStencilBuffer fb)
    (_depthStencilBufferSubresource fb) m (_width fb) (_height fb) (_numSamples fb).

Definition set_size (fb : Framebuffer) (w h n : Z) : Framebuffer :=
  MkFramebuffer (_swapchain fb) (_frameCount fb) (_renderBuffers fb)
    (_renderBuffersSubresource fb) (_depthStencilBuffer fb)
    (_depthStencilBufferSubresource fb) (_buffersMask fb) w h n.

(** [Framebuffer::Framebuffer()], whose body is empty: the pointers are
    null and the vectors empty.  The initial values of the scalar members
    are written in Framebuffer.h, which is not among the sources; they are
    zero here, and nothing below depends on that but [isEmpty] of a new
    framebuffer. *)
Definition construct : Framebuffer :=
  MkFramebuffer None 0 [] [] None 0 0 0 0 0.

Definition isSwapchain (fb : Framebuffer) : bool :=
  bool_decide (_swapchain fb ≠ None).

Definition isEmpty (fb : Framebuffer) : bool :=
  bool_decide (_buffersMask fb = 0).

Definition getWidth (fb : Framebuffer) : Z :=
  match _swapchain fb with
  | Some sc => Swapchain.getWidth sc
  | None => _width fb
  end.

Definition getHeight (fb : Framebuffer) : Z :=
  match _swapchain fb with
  | Some sc => Swapchain.getHeight sc
  | None => _height fb
  end.

Definition getNumSamples (fb : Framebuffer) : Z :=
  match _swapchain fb with
  | Some sc => Swapchain.getNumSamples sc
  | None => _numSamples fb
  end.

(** [validateTargetCompatibility]; the subresource is not looked at. *)
Definition validateTargetCompatibility (fb : Framebuffer) (texture : Texture.Texture)
    (subresource : Z) : bool :=
  if decide (Texture.getType texture = Texture.TEX_1D) then false
  else if isEmpty fb then true
  else if bool_decide (Texture.getWidth texture = getWidth fb)
          && bool_decide (Texture.getHeight texture = getHeight fb)
          && bool_decide (Texture.getNumSamples texture = getNumSamples fb)
       then true
       else false.

Definition updateSize (fb : Framebuffer) (texture : TexturePointer) : Framebuffer :=
  if negb (isEmpty fb) then fb
  else match texture with
       | Some t => set_size fb (Texture.getWidth t) (Texture.getHeight t)
                     (Texture.getNumSamples t)
       | None => set_size fb 0 0 0
       end.

(** [getNumRenderBuffers]: the loop adds [!i], one for a null pointer and
    zero for any other, to a [uint32]. *)
Definition getNumRenderBuffers (fb : Framebuffer) : Z :=
  fold_left (λ nb (i : TexturePointer),
               wrap_uint32 (nb + (if i is Some _ then 0 else 1)))
            (_renderBuffers fb) 0.

(** The number of slots that hold a null pointer. *)
Definition count_null (v : list TexturePointer) : nat :=
  length (filter (λ i, i = None) v).

Section Limits.

(** [MAX_NUM_RENDER_BUFFERS] and [getMaxNumRenderBuffers()] come from
    Framebuffer.h, which is not among the sources: they are parameters. *)
Variable MAX_NUM_RENDER_BUFFERS : nat.
Variable getMaxNumRenderBuffers : Z.

(** [Framebuffer::create()]. *)
Definition create : Framebuffer :=
  let framebuffer := construct in
  let framebuffer :=
    set_renderBuffers framebuffer
      (resize MAX_NUM_RENDER_BUFFERS None (_renderBuffers framebuffer)) in
  set_renderBuffersSubresource framebuffer
    (resize MAX_NUM_RENDER_BUFFERS 0 (_renderBuffersSubresource framebuffer)).

(** [setRenderBuffer]: the returned [int] and the framebuffer after the
    call.  [slot] is a [uint32]; indexing a vector past its end is
    undefined in C++, and stdpp's insert leaves the list as it is there:
    the theorems on the stores take the slot inside both vectors. *)
Definition setRenderBuffer (fb : Framebuffer) (slot : Z) (texture : TexturePointer)
    (subresource : Z) : Z * Framebuffer :=
  if isSwapchain fb then (-1, fb)
  else if decide (getMaxNumRenderBuffers ≤ slot) then (-1, fb)
  else if (if texture is Some t
           then negb (validateTargetCompatibility fb t subresource)
           else false)
  then (-1, fb)
  else
    let i := Z.to_nat slot in
    let fb :=
      match _renderBuffers fb !! i with
      | Some (Some _) =>
          set_renderBuffersSubresource
            (set_renderBuffers fb (<[i := None]> (_renderBuffers fb)))
            (<[i := 0]> (_renderBuffersSubresource fb))
      | _ => fb
      end in
    let fb := updateSize fb texture in
    let fb := set_renderBuffers fb (<[i := texture]> (_renderBuffers fb)) in
    let fb :=
      set_renderBuffersSubresource fb
        (<[i := subresource]> (_renderBuffersSubresource fb)) in
    let mask := wrap_int (Z.shiftl 1 slot) in
    let fb :=
      set_buffersMask fb (Z.land (_buffersMask fb) (wrap_uint32 (Z.lnot mask))) in
    let fb :=
      if texture is Some _
      then set_buffersMask fb (Z.lor (_buffersMask fb) (wrap_uint32 mask))
      else fb in
    (wrap_int slot, fb).

(** [getRenderBuffer] and [getRenderBufferSubresource]. *)
Definition getRenderBuffer (fb : Framebuffer) (slot : Z) : TexturePointer :=
  if negb (isSwapchain fb) && bool_decide (slot < getMaxNumRenderBuffers)
  then default None (_renderBuffers fb !! Z.to_nat slot)
  else None.

Definition getRenderBufferSubresource (fb : Framebuffer) (slot : Z) : Z :=
  if negb (isSwapchain fb) && bool_decide (slot < getMaxNumRenderBuffers)
  then default 0 (_renderBuffersSubresource fb !! Z.to_nat slot)
  else 0.

(** When the call is refused, as C10 words it: the
    framebuffer is a swapchain, or the slot is not below
    [getMaxNumRenderBuffers()], or the texture is not null and is a 1D
    texture or, the framebuffer not being empty, differs from it in
    width, height or number of samples. *)
Definition refused (fb : Framebuffer) (slot : Z) (texture : TexturePointer) : bool :=
  isSwapchain fb
  || bool_decide (getMaxNumRenderBuffers ≤ slot)
  || (if texture is Some t
      then bool_decide (Texture.getType t = Texture.TEX_1D)
           || negb (isEmpty fb)
              && (bool_decide (Texture.getWidth t ≠ getWidth fb)
                  || bool_decide (Texture.getHeight t ≠ getHeight fb)
                  || bool_decide (Texture.getNumSamples t ≠ getNumSamples fb))
      else false).

End Limits.

Section DepthStencil.

(** [MAX_NUM_RENDER_BUFFERS], [getMaxNumRenderBuffers()] and the mask
    [BUFFER_DEPTHSTENCIL] come from Framebuffer.h, which is not among the
    sources: they are parameters. *)
Variable MAX_NUM_RENDER_BUFFERS : nat.
Variable getMaxNumRenderBuffers : Z.
Variable BUFFER_DEPTHSTENCIL : Z.

Definition set_depthStencilBuffer (fb : Framebuffer) (texture : TexturePointer)
    (subresource : Z) : Framebuffer :=
  MkFramebuffer (_swapchain fb) (_frameCount fb) (_renderBuffers fb)
    (_renderBuffersSubresource fb) texture subresource (_buffersMask fb)
    (_width fb) (_height fb) (_numSamples fb).

(** [getFrameCount]. *)
Definition getFrameCount (fb : Framebuffer) : Z :=
  match _swapchain fb with
  | Some sc => Swapchain.getFrameCount sc
  | None => _frameCount fb
  end.

(** [setDepthStencilBuffer]: the returned [bool] and the framebuffer after
    the call.  The compatibility check is called without a subresource, which
    it does not look at. *)
Definition setDepthStencilBuffer (fb : Framebuffer) (texture : TexturePointer)
    (subresource : Z) : bool * Framebuffer :=
  if isSwapchain fb then (false, fb)
  else if (if texture is Some t
           then negb (validateTargetCompatibility fb t 0)
           else false)
  then (false, fb)
  else
    let fb := set_depthStencilBuffer fb None 0 in
    let fb := updateSize fb texture in
    let fb := set_depthStencilBuffer fb texture subresource in
    let fb :=
      set_buffersMask fb
        (Z.land (_buffersMask fb) (wrap_uint32 (Z.lnot BUFFER_DEPTHSTENCIL))) in
    let fb :=
      if texture is Some _
      then set_buffersMask fb (Z.lor (_buffersMask fb) BUFFER_DEPTHSTENCIL)
      else fb in
    (true, fb).

(** [removeRenderBuffers].  The loop variable is declared [auto], not
    [auto&]: each turn copies a pointer of the vector and resets the copy,
    which leaves the vector as it is. *)
Definition removeRenderBuffers (fb : Framebuffer) : Framebuffer :=
  if isSwapchain fb then fb
  else
    let fb := set_buffersMask fb (Z.land (_buffersMask fb) BUFFER_DEPTHSTENCIL) in
    let fb :=
      fold_left (λ fb (renderBuffer : TexturePointer),
                   let renderBuffer : TexturePointer := None in fb)
                (_renderBuffers fb) fb in
    updateSize fb None.

(** [getDepthStencilBuffer] and [getDepthStencilBufferSubresource]. *)
Definition getDepthStencilBuffer (fb : Framebuffer) : TexturePointer :=
  if isSwapchain fb then None else _depthStencilBuffer fb.

Definition getDepthStencilBufferSubresource (fb : Framebuffer) : Z :=
  if isSwapchain fb then 0 else _depthStencilBufferSubresource fb.

(** When [setDepthStencilBuffer] is refused: the guards of [refused]
    without the one on the slot. *)
Definition refused_depthStencil (fb : Framebuffer) (texture : TexturePointer) : bool :=
  isSwapchain fb
  || (if texture is Some t
      then bool_decide (Texture.getType t = Texture.TEX_1D)
           || negb (isEmpty fb)
              && (bool_decide (Texture.getWidth t ≠ getWidth fb)
                  || bool_decide (Texture.getHeight t ≠ getHeight fb)
                  || bool_decide (Texture.getNumSamples t ≠ getNumSamples fb))
      else false).

(** [Framebuffer::create(colorBufferFormat, depthStencilBufferFormat, width,
    height, numSamples)], given the two textures that [Texture::create2D]
    (Texture.cpp, not among the sources) returns for the two formats; the
    results of the two setters are dropped, and [numSamples] is not used.
    The subresource the calls leave out is zero. *)
Definition create_textured (colorTexture depthTexture : TexturePointer) : Framebuffer :=
  let framebuffer := create MAX_NUM_RENDER_BUFFERS in
  let framebuffer :=
    (setRenderBuffer getMaxNumRenderBuffers framebuffer 0 colorTexture 0).2 in
  let framebuffer := (setDepthStencilBuffer framebuffer depthTexture 0).2 in
  framebuffer.

(** The framebuffers a caller can put together: one made by [create()],
    whose mask is empty (see [construct]), and what calls of the two setters
    make of it.  [removeRenderBuffers] is left out: it clears bits of the
    mask and keeps the pointers. *)
Inductive assembled : Framebuffer → Prop :=
  | assembled_create : assembled (create MAX_NUM_RENDER_BUFFERS)
  | assembled_setRenderBuffer fb slot texture subresource :
      assembled fb → 0 ≤ slot →
      assembled (setRenderBuffer getMaxNumRenderBuffers fb slot texture subresource).2
  | assembled_setDepthStencilBuffer fb texture subresource :
      assembled fb →
      assembled (setDepthStencilBuffer fb texture subresource).2.

(** What is asked of the three parameters: the render-buffer slots are bits
    of the 32-bit mask and slots of the vectors, and the depth-stencil mask
    is made of other bits of it, at least one. *)
Definition limits : Prop :=
  0 ≤ getMaxNumRenderBuffers ≤ 32 ∧
  getMaxNumRenderBuffers ≤ Z.of_nat MAX_NUM_RENDER_BUFFERS ∧
  0 < BUFFER_DEPTHSTENCIL ≤ UINT32_MAX ∧
  ∀ b, 0 ≤ b < getMaxNumRenderBuffers → Z.testbit BUFFER_DEPTHSTENCIL b = false.

(** A texture has the size the framebuffer keeps, and is not 1D. *)
Definition fits (fb : Framebuffer) (t : Texture.Texture) : Prop :=
  Texture.getType t ≠ Texture.TEX_1D ∧
  Texture.getWidth t = _width fb ∧
  Texture.getHeight t = _height fb ∧
  Texture.getNumSamples t = _numSamples fb.

(** The mask and the pointers tell the same story, and every texture the
    framebuffer holds fits it. *)
Definition coherent (fb : Framebuffer) : Prop :=
  _swapchain fb = None ∧
  getMaxNumRenderBuffers ≤ Z.of_nat (length (_renderBuffers fb)) ∧
  getMaxNumRenderBuffers ≤ Z.of_nat (length (_renderBuffersSubresource fb)) ∧
  (∀ i : nat, Z.of_nat i < getMaxNumRenderBuffers →
     Z.testbit (_buffersMask fb) (Z.of_nat i)
     = bool_decide (is_Some (default None (_renderBuffers fb !! i)))) ∧
  (∀ i : nat, getMaxNumRenderBuffers ≤ Z.of_nat i →
     default None (_renderBuffers fb !! i) = None) ∧
  (∀ b, Z.testbit BUFFER_DEPTHSTENCIL b = true →
     Z.testbit (_buffersMask fb) b = bool_decide (is_Some (_depthStencilBuffer fb))) ∧
  (∀ b, Z.testbit (_buffersMask fb) b = true →
     0 ≤ b < getMaxNumRenderBuffers ∨ Z.testbit BUFFER_DEPTHSTENCIL b = true) ∧
  (∀ (i : nat) t, _renderBuffers fb !! i = Some (Some t) → fits fb t) ∧
  (∀ t, _depthStencilBuffer fb = Some t → fits fb t).

End DepthStencil.

End Framebuffer.

(** ** Concrete values used in the instances below *)

Module Examples.

(** Three class names, the first and the last the same. *)
Definition names : list string := ["A"; "B"; "A"]%string.

(** Three one-bit values, the first and the last the same. *)
Definition flags : list bool := [true; false; true].

(** A boolean travels as one bit. *)
Definition bool_write (b : bool) : list bool := [b].

Definition bool_read (bits : list bool) : option (bool * list bool) :=
  match bits with
  | b :: rest => Some (b, rest)
  | [] => None
  end.

(** A streamer in which ["A"] is registered with the persistent ID zero. *)
Definition registered_zero : RepeatedValueStreamer string :=
  MkRepeatedValueStreamer 0 0 {["A"%string := 0]} ∅ ∅.

(** A streamer in which ["A"] is registered with the persistent ID five. *)
Definition registered_five : RepeatedValueStreamer string :=
  MkRepeatedValueStreamer 5 0 {["A"%string := 5]} ∅ ∅.

(** An address travels as eight bits, least significant first. *)
Definition address_write (a : N) : list bool := IDStreamer.to_bits 8 (Z.of_N a).

Definition address_read (bits : list bool) : option (N * list bool) :=
  if decide (8 ≤ length bits)%nat
  then Some (Z.to_N (IDStreamer.of_bits (take 8 bits)), drop 8 bits)
  else None.

(** A transport to try a Bitstream on: the bits written so far and the
    bits not yet read.  Identifiers go through the ID coder of the spec,
    addresses as eight bits. *)
Definition Tape : Type := list bool * list bool.

Definition tape_id_write (c : Z) (t : Tape) (id : Z) : Z * Tape :=
  let '(c', bits) := IDStreamer.write c id in (c', (t.1 ++ bits, t.2)).

Definition tape_id_read (c : Z) (t : Tape) : option (Z * Z * Tape) :=
  match IDStreamer.read c t.2 with
  | None => None
  | Some (id, c', rest) => Some (id, c', (t.1, rest))
  end.

Definition tape_attribute_write (t : Tape) (a : N) : Tape :=
  (t.1 ++ address_write a, t.2).

Definition tape_attribute_read (t : Tape) : option (N * Tape) :=
  match address_read t.2 with
  | None => None
  | Some (a, rest) => Some (a, (t.1, rest))
  end.

(** Two bytes: identifier 1 in the one bit an ID coder takes whose highest
    identifier is zero, the address 9 in eight bits, seven bits of padding. *)
Definition nine_on_tape : list bool :=
  [true; true; false; false; true; false; false; false; false;
   false; false; false; false; false; false; false].

(** A 2D texture of 640 by 480, one sample. *)
Definition texture_640x480 : Texture.Texture :=
  Texture.MkTexture Texture.TEX_2D 640 480 1.

(** A second texture of that size. *)
Definition depth_640x480 : Texture.Texture :=
  Texture.MkTexture Texture.TEX_2D 640 480 1.

(** The two top bits of the mask, for the depth and the stencil buffer. *)
Definition depth_stencil_bits : Z := 3221225472.

(** A framebuffer on a swapchain of 800 by 600 with two frames. *)
Definition swapchain_800x600 : Swapchain.Swapchain :=
  Swapchain.MkSwapchain 800 600 1 2.

Definition on_screen : Framebuffer.Framebuffer :=
  Framebuffer.MkFramebuffer (Some swapchain_800x600) 0 [] [] None 0 0 0 0 0.

(** A new framebuffer of eight slots with a colour texture in slot 0. *)
Definition coloured : Framebuffer.Framebuffer :=
  (Framebuffer.setRenderBuffer 8 (Framebuffer.create 8) 0 (Some texture_640x480) 0).2.

(** A streamer that has written ["A"], and one whose cache holds ["A"]
    under identifier 1. *)
Definition wrote_A : RepeatedValueStreamer string :=
  (RVS.op_write RVS.construct "A"%string).1.

Definition cached_A : RepeatedValueStreamer string :=
  MkRepeatedValueStreamer 0 0 ∅ ∅ {[1 := "A"%string]}.

End Examples.

(** * Properties *)

(** ** Machine integers *)

Section MachineIntFacts.

Lemma wrap_int_id (z : Z) : - 2 ^ 31 ≤ z ≤ INT_MAX → wrap_int z = z.
Proof.
  unfold wrap_int, INT_MAX. intros Hz.
  rewrite Z.mod_small; lia.
Qed.

Lemma wrap_uint32_id (z : Z) : 0 ≤ z ≤ UINT32_MAX → wrap_uint32 z = z.
Proof.
  unfold wrap_uint32, UINT32_MAX. intros Hz.
  rewrite Z.mod_small; lia.
Qed.

Lemma wrap_int_range (z : Z) : - 2 ^ 31 ≤ wrap_int z ≤ INT_MAX.
Proof.
  unfold wrap_int, INT_MAX.
  pose proof (Z.mod_pos_bound (z + 2 ^ 31) (2 ^ 32) ltac:(lia)). lia.
Qed.

End MachineIntFacts.

(** ** RepeatedValueStreamer: the three branches of [operator<<] *)

Section StreamerFacts.

Context {T : Type} `{Countable T}.
Implicit Types (s w r : RepeatedValueStreamer T) (v : T) (o id : Z).

Import RVS.

Lemma hash_value_Some (h : gmap T Z) v o : h !! v = Some o → hash_value h v = o.
Proof. unfold hash_value. by intros ->. Qed.

Lemma hash_value_None (h : gmap T Z) v : h !! v = None → hash_value h v = 0.
Proof. unfold hash_value. by intros ->. Qed.

Lemma hash_value_zero (h : gmap T Z) v :
  hash_value h v = 0 ↔ h !! v = None ∨ h !! v = Some 0.
Proof.
  unfold hash_value. destruct (h !! v) as [o|]; simpl; split.
  - intros ->. by right.
  - intros [?|?]; congruence.
  - by left.
  - done.
Qed.

(** [operator>>] on a wire of transfers, case by case. *)
Lemma op_read_unfold s (wi : list (Item T)) :
  op_read s wi =
    match wi with
    | ItemID id :: wi' =>
        match _values s !! id with
        | None =>
            match wi' with
            | ItemValue value :: wi'' =>
                Some (value,
                      MkRepeatedValueStreamer (_lastPersistentID s) (_lastTransientOffset s)
                        (_persistentIDs s) (_transientOffsets s)
                        (<[id := value]> (_values s)),
                      wi'')
            | _ => None
            end
        | Some value => Some (value, s, wi')
        end
    | _ => None
    end.
Proof.
  unfold op_read, op_read_from.
  destruct wi as [|[id|y] wi']; simpl; try done.
  destruct (_values s !! id); [done|].
  by destruct wi' as [|[?|?] ?].
Qed.

Lemma op_write_persistent s v id :
  hash_value (_persistentIDs s) v = id → id ≠ 0 →
  op_write s v = (s, [ItemID id]).
Proof.
  intros Hid Hnz. unfold op_write. rewrite Hid.
  by destruct (decide (id = 0)).
Qed.

Lemma op_write_repeat s v o :
  hash_value (_persistentIDs s) v = 0 →
  hash_value (_transientOffsets s) v = o → o ≠ 0 →
  op_write s v = (s, [ItemID (wrap_int (_lastPersistentID s + o))]).
Proof.
  intros Hp Ht Hnz. unfold op_write. rewrite Hp, Ht. simpl.
  by destruct (decide (o = 0)).
Qed.

Lemma op_write_new s v :
  hash_value (_persistentIDs s) v = 0 →
  hash_value (_transientOffsets s) v = 0 →
  op_write s v =
    (MkRepeatedValueStreamer (_lastPersistentID s)
       (wrap_int (_lastTransientOffset s + 1)) (_persistentIDs s)
       (<[v := wrap_int (_lastTransientOffset s + 1)]> (_transientOffsets s))
       (_values s),
     [ItemID (wrap_int (_lastPersistentID s + wrap_int (_lastTransientOffset s + 1)));
      ItemValue v]).
Proof.
  intros Hp Ht. unfold op_write. rewrite Hp, Ht. done.
Qed.

(** No write touches the persistent table, the persistent counter or the
    read cache. *)
Lemma op_write_frame s v :
  _lastPersistentID (op_write s v).1 = _lastPersistentID s ∧
  _persistentIDs (op_write s v).1 = _persistentIDs s ∧
  _values (op_write s v).1 = _values s.
Proof.
  unfold op_write.
  destruct (decide (hash_value (_persistentIDs s) v = 0)); [|done].
  destruct (decide (hash_value (_transientOffsets s) v = 0)); done.
Qed.

(** An offset that is in the transient table stays there, unchanged,
    whatever is written next. *)
Lemma op_write_keeps_offset s u v o :
  _transientOffsets s !! v = Some o → o ≠ 0 →
  _transientOffsets (op_write s u).1 !! v = Some o.
Proof.
  intros Hv Hnz. unfold op_write.
  destruct (decide (hash_value (_persistentIDs s) u = 0)); [|done].
  destruct (decide (hash_value (_transientOffsets s) u = 0)) as [Hz|]; [|done].
  simpl. destruct (decide (u = v)) as [->|Hne].
  - rewrite (hash_value_Some _ _ _ Hv) in Hz. done.
  - by rewrite lookup_insert_ne.
Qed.

Lemma write_all_frame vs : ∀ s,
  _lastPersistentID (write_all s vs).1 = _lastPersistentID s ∧
  _persistentIDs (write_all s vs).1 = _persistentIDs s ∧
  _values (write_all s vs).1 = _values s.
Proof.
  induction vs as [|u vs IH]; intros s; [done|].
  simpl. destruct (op_write s u) as [s1 out1] eqn:E1.
  destruct (write_all s1 vs) as [s2 out2] eqn:E2. simpl.
  specialize (IH s1). rewrite E2 in IH. simpl in IH.
  pose proof (op_write_frame s u) as F. rewrite E1 in F. simpl in F.
  destruct IH as (-> & -> & ->). done.
Qed.

Lemma write_all_keeps_offset vs : ∀ s v o,
  _transientOffsets s !! v = Some o → o ≠ 0 →
  _transientOffsets (write_all s vs).1 !! v = Some o.
Proof.
  induction vs as [|u vs IH]; intros s v o Hv Hnz; [done|].
  simpl. destruct (op_write s u) as [s1 out1] eqn:E1.
  destruct (write_all s1 vs) as [s2 out2] eqn:E2. simpl.
  specialize (IH s1 v o). rewrite E2 in IH. apply IH; [|done].
  pose proof (op_write_keeps_offset s u v o Hv Hnz) as K.
  by rewrite E1 in K.
Qed.

(** *** Well-formedness is an invariant *)

Lemma well_formed_construct : well_formed (construct (T := T)).
Proof.
  unfold well_formed, construct, INT_MAX. simpl.
  repeat split; try lia; rewrite lookup_empty in *; done.
Qed.

Lemma well_formed_reset s :
  well_formed s → well_formed (getAndResetTransientOffsets s).2.
Proof.
  unfold well_formed. simpl. intros (Hp & Ht & Hm & Htab).
  repeat split; try lia; rewrite lookup_empty in *; done.
Qed.

Lemma well_formed_write s v :
  well_formed s → has_room s → well_formed (op_write s v).1.
Proof.
  unfold well_formed, has_room. intros (Hp & Ht & Hm & Htab) Hroom.
  unfold op_write.
  destruct (decide (hash_value (_persistentIDs s) v = 0)); [|done].
  destruct (decide (hash_value (_transientOffsets s) v = 0)); [|done].
  simpl. rewrite wrap_int_id by (unfold INT_MAX in *; lia).
  split; [lia|]. split; [lia|]. split; [lia|].
  intros u o Hu. destruct (decide (v = u)) as [->|Hne].
  - rewrite lookup_insert_eq in Hu. injection Hu as <-. lia.
  - rewrite lookup_insert_ne in Hu by done. apply Htab in Hu. lia.
Qed.

Lemma well_formed_read s wi x s' wi' :
  well_formed s → op_read s wi = Some (x, s', wi') → well_formed s'.
Proof.
  intros Hwf. rewrite op_read_unfold.
  destruct wi as [|[id|?] wi0]; [done| |done].
  destruct (_values s !! id).
  - intros [= <- <- <-]. done.
  - destruct wi0 as [|[?|y] wi1]; [done|done|].
    intros [= <- <- <-]. done.
Qed.

Lemma reachable_well_formed s : reachable s → well_formed s.
Proof.
  induction 1 as [|s v _ IH Hroom|s wi v s' wi' _ IH Hread|s _ IH].
  - apply well_formed_construct.
  - by apply well_formed_write.
  - by eapply well_formed_read.
  - by apply well_formed_reset.
Qed.

End StreamerFacts.

(** ** RepeatedValueStreamer: harvest, precedence, sentinel, de-duplication *)

Section StreamerClaims.

Context {T : Type} `{Countable T}.
Implicit Types (s w r : RepeatedValueStreamer T) (v : T) (o id : Z).

Import RVS.

(** C6. [getAndResetTransientOffsets] returns the transient table, leaves
    it empty and the transient counter at zero, and does not touch the
    persistent table, the persistent counter or the read cache. *)
Theorem harvest_frame s :
  (getAndResetTransientOffsets s).1 = _transientOffsets s ∧
  _transientOffsets (getAndResetTransientOffsets s).2 = ∅ ∧
  _lastTransientOffset (getAndResetTransientOffsets s).2 = 0 ∧
  _persistentIDs (getAndResetTransientOffsets s).2 = _persistentIDs s ∧
  _lastPersistentID (getAndResetTransientOffsets s).2 = _lastPersistentID s ∧
  _values (getAndResetTransientOffsets s).2 = _values s.
Proof. unfold getAndResetTransientOffsets. simpl. done. Qed.

(** C5. On a constructed streamer, writing [A], then [B], then [A] again
    and harvesting gives the table with [A] at 1 and [B] at 2 and nothing
    else; harvesting once more, with no write in between, gives the empty
    table. *)
Theorem transient_harvest (A B : T) :
  A ≠ B →
  let s3 := (write_all construct [A; B; A]).1 in
  let first := getAndResetTransientOffsets s3 in
  let second := getAndResetTransientOffsets first.2 in
  first.1 = {[A := 1; B := 2]} ∧ second.1 = ∅.
Proof.
  intros Hne. simpl.
  rewrite (op_write_new construct A); [|by apply hash_value_None..].
  simpl. change (wrap_int (0 + 1)) with 1.
  set (s1 := MkRepeatedValueStreamer 0 1 ∅ (<[A := 1]> ∅) ∅).
  rewrite (op_write_new s1 B); cycle 1.
  { by apply hash_value_None. }
  { apply hash_value_None. simpl. by rewrite lookup_insert_ne. }
  simpl. change (wrap_int (1 + 1)) with 2.
  set (s2 := MkRepeatedValueStreamer 0 2 ∅ (<[B := 2]> (<[A := 1]> ∅)) ∅).
  rewrite (op_write_repeat s2 A 1); cycle 1.
  { by apply hash_value_None. }
  { apply hash_value_Some. simpl.
    rewrite lookup_insert_ne by done. apply lookup_insert_eq. }
  { done. }
  simpl. split; [|done].
  apply insert_insert_ne. done.
Qed.

(** C4, amended. A value whose entry in the persistent table is not zero
    is written as that persistent ID alone: one identifier, no value, and
    the streamer, with its transient table and transient counter, is left
    as it was. *)
Theorem persistent_precedence s v id :
  _persistentIDs s !! v = Some id →
  id ≠ 0 →
  op_write s v = (s, [ItemID id]) ∧
  count_values (op_write s v).2 = 0%nat ∧
  _transientOffsets (op_write s v).1 = _transientOffsets s ∧
  _lastTransientOffset (op_write s v).1 = _lastTransientOffset s.
Proof.
  intros Hid Hnz.
  rewrite (op_write_persistent s v id); [done| |done].
  by apply hash_value_Some.
Qed.

(** C8. Zero means absent.  A value registered with persistent ID 0 is
    written exactly as it would be with no entry in the persistent table,
    and when it has no transient offset yet it gets one and travels in
    full.  Every value written on the transient path ends up with an
    offset of at least one in the transient table, and the identifier
    emitted for it is the persistent counter plus that offset: at least the
    counter plus one, and not zero. *)
Theorem zero_is_absent s v :
  well_formed s →
  has_room s →
  (_persistentIDs s !! v = Some 0 →
     let unregistered :=
       MkRepeatedValueStreamer (_lastPersistentID s) (_lastTransientOffset s)
         (delete v (_persistentIDs s)) (_transientOffsets s) (_values s) in
     (op_write s v).2 = (op_write unregistered v).2 ∧
     _transientOffsets (op_write s v).1 = _transientOffsets (op_write unregistered v).1 ∧
     _lastTransientOffset (op_write s v).1 = _lastTransientOffset (op_write unregistered v).1 ∧
     (hash_value (_transientOffsets s) v = 0 →
        (op_write s v).2 =
          [ItemID (_lastPersistentID s + (_lastTransientOffset s + 1)); ItemValue v] ∧
        _transientOffsets (op_write s v).1 !! v = Some (_lastTransientOffset s + 1))) ∧
  (hash_value (_persistentIDs s) v = 0 →
     ∃ o tail,
       _transientOffsets (op_write s v).1 !! v = Some o ∧
       1 ≤ o ∧
       (op_write s v).2 = ItemID (_lastPersistentID s + o) :: tail ∧
       _lastPersistentID s + 1 ≤ _lastPersistentID s + o ∧
       _lastPersistentID s + o ≠ 0).
Proof.
  intros Hwf Hroom.
  assert (Hwf' := Hwf). destruct Hwf' as (Hp & Ht & Hm & Htab).
  unfold has_room in Hroom.
  assert (Hnew : wrap_int (_lastTransientOffset s + 1) = _lastTransientOffset s + 1).
  { apply wrap_int_id. unfold INT_MAX in *. lia. }
  assert (Hsum : wrap_int (_lastPersistentID s + (_lastTransientOffset s + 1))
                 = _lastPersistentID s + (_lastTransientOffset s + 1)).
  { apply wrap_int_id. unfold INT_MAX in *. lia. }
  split.
  - intros Hzero. simpl.
    assert (Hp0 : hash_value (_persistentIDs s) v = 0) by by apply hash_value_Some.
    destruct (decide (hash_value (_transientOffsets s) v = 0)) as [Ht0|Ht0].
    + rewrite (op_write_new s v) by done.
      rewrite op_write_new; simpl; [|apply hash_value_None, lookup_delete_eq|done].
      rewrite Hnew, Hsum. split_and!; try done.
      intros _. split; [done|]. apply lookup_insert_eq.
    + rewrite (op_write_repeat s v _ Hp0 eq_refl Ht0).
      rewrite (op_write_repeat _ v (hash_value (_transientOffsets s) v));
        simpl; [|apply hash_value_None, lookup_delete_eq|done|done].
      split_and!; done.
  - intros Hp0.
    destruct (decide (hash_value (_transientOffsets s) v = 0)) as [Ht0|Ht0].
    + exists (_lastTransientOffset s + 1), [ItemValue v].
      rewrite (op_write_new s v) by done. simpl.
      rewrite Hnew, Hsum, lookup_insert_eq.
      split_and!; try done; lia.
    + destruct (_transientOffsets s !! v) as [o|] eqn:Ho; cycle 1.
      { by rewrite (hash_value_None _ _ Ho) in Ht0. }
      pose proof (Htab v o Ho) as Hrange.
      rewrite (hash_value_Some _ _ _ Ho) in Ht0.
      exists o, [].
      rewrite (op_write_repeat s v o Hp0 (hash_value_Some _ _ _ Ho) Ht0). simpl.
      rewrite wrap_int_id by (unfold INT_MAX in *; lia).
      split_and!; try done; lia.
Qed.

(** A new value written, and written again after any other writes: the
    first write puts it in the transient table and emits the combined ID and
    the value; the later one emits that identifier alone. *)
Lemma op_write_again s v (between : list T) :
  well_formed s →
  has_room s →
  hash_value (_persistentIDs s) v = 0 →
  hash_value (_transientOffsets s) v = 0 →
  let id := _lastPersistentID s + (_lastTransientOffset s + 1) in
  let first := op_write s v in
  let later := write_all first.1 between in
  first = (MkRepeatedValueStreamer (_lastPersistentID s) (_lastTransientOffset s + 1)
             (_persistentIDs s)
             (<[v := _lastTransientOffset s + 1]> (_transientOffsets s)) (_values s),
           [ItemID id; ItemValue v]) ∧
  op_write later.1 v = (later.1, [ItemID id]) ∧
  _lastPersistentID later.1 = _lastPersistentID s ∧
  _persistentIDs later.1 = _persistentIDs s ∧
  _transientOffsets later.1 !! v = Some (_lastTransientOffset s + 1).
Proof.
  intros Hwf Hroom Hp0 Ht0 id first later.
  destruct Hwf as (Hp & Ht & Hm & Htab). unfold has_room in Hroom.
  assert (Hnew : wrap_int (_lastTransientOffset s + 1) = _lastTransientOffset s + 1).
  { apply wrap_int_id. unfold INT_MAX in *. lia. }
  assert (Hsum : wrap_int id = id).
  { apply wrap_int_id. unfold id, INT_MAX in *. lia. }
  assert (Hfirst : first = (MkRepeatedValueStreamer (_lastPersistentID s)
                              (_lastTransientOffset s + 1) (_persistentIDs s)
                              (<[v := _lastTransientOffset s + 1]> (_transientOffsets s))
                              (_values s),
                            [ItemID id; ItemValue v])).
  { unfold first. rewrite (op_write_new s v) by done. rewrite Hnew. fold id.
    by rewrite Hsum. }
  destruct (write_all_frame between first.1) as (Flp & Fpers & _).
  fold later in Flp, Fpers. rewrite Hfirst in Flp, Fpers. simpl in Flp, Fpers.
  assert (Hoff : _transientOffsets later.1 !! v = Some (_lastTransientOffset s + 1)).
  { apply write_all_keeps_offset; [|lia]. rewrite Hfirst. apply lookup_insert_eq. }
  split_and!; try done.
  rewrite (op_write_repeat later.1 v (_lastTransientOffset s + 1)).
  - rewrite Flp. fold id. by rewrite Hsum.
  - by rewrite Fpers.
  - by apply hash_value_Some.
  - lia.
Qed.

(** A value with no persistent ID that is not yet in the transient table
    is written three times, with any other writes in between.  The first
    write emits the combined ID (persistent counter plus the new transient
    offset) and, right after it, the value in full; the second and the third
    emit that same identifier and nothing else: the value travels once. *)
Lemma deduplication_transfers s v (between1 between2 : list T) :
  well_formed s →
  has_room s →
  hash_value (_persistentIDs s) v = 0 →
  hash_value (_transientOffsets s) v = 0 →
  let id := _lastPersistentID s + (_lastTransientOffset s + 1) in
  let first := op_write s v in
  let second := op_write (write_all first.1 between1).1 v in
  let third := op_write (write_all second.1 between2).1 v in
  _transientOffsets first.1 !! v = Some (_lastTransientOffset s + 1) ∧
  first.2 = [ItemID id; ItemValue v] ∧
  second.2 = [ItemID id] ∧
  third.2 = [ItemID id] ∧
  count_values (first.2 ++ second.2 ++ third.2) = 1%nat.
Proof.
  intros Hwf Hroom Hp0 Ht0 id first second third.
  destruct (op_write_again s v between1 Hwf Hroom Hp0 Ht0)
    as (Hfirst & Hsecond & Hlp2 & Hpers2 & Hoff2).
  fold first in Hfirst, Hsecond, Hlp2, Hpers2, Hoff2. fold id in Hfirst, Hsecond.
  fold second in Hsecond.
  (* the third write finds the streamer as the second did, but for the
     writes in between *)
  assert (Hthird : third = ((write_all second.1 between2).1, [ItemID id])).
  { unfold third.
    destruct (write_all_frame between2 second.1) as (Flp & Fpers & _).
    rewrite Hsecond in Flp, Fpers |- *. cbn [fst] in Flp, Fpers |- *.
    destruct Hwf as (Hp & Ht & Hm & Htab). unfold has_room in Hroom.
    rewrite (op_write_repeat _ v (_lastTransientOffset s + 1)).
    - rewrite Flp, Hlp2. fold id. rewrite wrap_int_id; [done|].
      unfold id, INT_MAX in *. lia.
    - by rewrite Fpers, Hpers2.
    - apply hash_value_Some, write_all_keeps_offset; [done|lia].
    - lia. }
  rewrite Hfirst, Hsecond, Hthird. simpl.
  unfold count_values, wire_bits. simpl.
  split_and!; try done. apply lookup_insert_eq.
Qed.

End StreamerClaims.

(** ** RepeatedValueStreamer: writer and reader stay in lock-step *)

Section RoundTrip.

Context {T : Type} `{Countable T}.
Implicit Types (s w r : RepeatedValueStreamer T) (v : T) (o id : Z).
Implicit Types (vs seen : list T) (rest : list (Item T)).

Import RVS.

Lemma write_all_cons s v vs :
  write_all s (v :: vs) =
    ((write_all (op_write s v).1 vs).1,
     (op_write s v).2 ++ (write_all (op_write s v).1 vs).2).
Proof.
  simpl. destruct (op_write s v) as [s1 out1]. simpl.
  by destruct (write_all s1 vs) as [s2 out2].
Qed.

Lemma write_all_app vs1 : ∀ s vs2,
  write_all s (vs1 ++ vs2) =
    ((write_all (write_all s vs1).1 vs2).1,
     (write_all s vs1).2 ++ (write_all (write_all s vs1).1 vs2).2).
Proof.
  induction vs1 as [|v vs1 IH]; intros s vs2.
  - simpl. by destruct (write_all s vs2).
  - rewrite <- app_comm_cons, !write_all_cons, IH. simpl.
    by rewrite app_assoc.
Qed.

Lemma first_seen_from_cons seen v vs :
  first_seen_from seen (v :: vs) =
    first_seen_from (if decide (v ∈ seen) then seen else seen ++ [v]) vs.
Proof. done. Qed.

Lemma first_seen_from_length vs : ∀ seen,
  (length seen ≤ length (first_seen_from seen vs))%nat.
Proof.
  induction vs as [|v vs IH]; intros seen; [done|].
  rewrite first_seen_from_cons. destruct (decide (v ∈ seen)).
  - apply IH.
  - etrans; [|apply IH]. rewrite length_app. simpl. lia.
Qed.

Lemma wire_bits_app (id_bits : Z → nat) (value_bits : T → nat) (w1 w2 : list (Item T)) :
  wire_bits id_bits value_bits (w1 ++ w2)
  = (wire_bits id_bits value_bits w1 + wire_bits id_bits value_bits w2)%nat.
Proof. unfold wire_bits. apply sum_list_with_app. Qed.

(** A value the writer has numbered is in [seen], and the other way. *)
Lemma numbered_elem_of seen s v :
  numbered seen s → v ∈ seen ↔ is_Some (_transientOffsets s !! v).
Proof.
  intros [_ Hnum]. rewrite list_elem_of_lookup. split.
  - intros [n Hn]. exists (Z.of_nat (S n)). apply Hnum. eauto.
  - intros [o Ho]. apply Hnum in Ho as (n & Hn & _). eauto.
Qed.

(** One repeated value: the writer sends the identifier, the reader finds
    it in its cache. *)
Lemma step_repeat w r v o rest :
  well_formed w → lock_step w r →
  _transientOffsets w !! v = Some o →
  op_write w v = (w, [ItemID (_lastPersistentID w + o)]) ∧
  op_read r (ItemID (_lastPersistentID w + o) :: rest) = Some (v, r, rest).
Proof.
  intros (Hp & Ht & Hm & Htab) (Hpers & Hfwd & Hbwd) Ho.
  pose proof (Htab v o Ho) as Hrange.
  split.
  - rewrite (op_write_repeat w v o); [|done|by apply hash_value_Some|lia].
    by rewrite wrap_int_id by (unfold INT_MAX in *; lia).
  - rewrite op_read_unfold. by rewrite (Hfwd v o Ho).
Qed.

(** One new value: the writer hands out the next offset and sends the
    identifier and the value; the reader does not know the identifier,
    takes the value and caches it.  Both stay in lock-step. *)
Lemma step_new w r v seen rest :
  well_formed w → has_room w → lock_step w r → numbered seen w →
  _transientOffsets w !! v = None →
  let o := _lastTransientOffset w + 1 in
  let id := _lastPersistentID w + o in
  let r' := MkRepeatedValueStreamer (_lastPersistentID r) (_lastTransientOffset r)
              (_persistentIDs r) (_transientOffsets r) (<[id := v]> (_values r)) in
  (op_write w v).2 = [ItemID id; ItemValue v] ∧
  op_read r (ItemID id :: ItemValue v :: rest) = Some (v, r', rest) ∧
  lock_step (op_write w v).1 r' ∧
  numbered (seen ++ [v]) (op_write w v).1.
Proof.
  intros Hwf Hroom (Hpers & Hfwd & Hbwd) [Hlen Hnum] Hnone o id r'.
  assert (Hwf' := Hwf). destruct Hwf' as (Hp & Ht & Hm & Htab).
  unfold has_room in Hroom.
  assert (Hnew : wrap_int o = o).
  { apply wrap_int_id. unfold o, INT_MAX in *. lia. }
  assert (Hsum : wrap_int id = id).
  { apply wrap_int_id. unfold id, o, INT_MAX in *. lia. }
  assert (Hmiss : _values r !! id = None).
  { destruct (_values r !! id) as [u|] eqn:Hu; [|done].
    apply Hbwd, Htab in Hu. unfold id, o in Hu. lia. }
  rewrite (op_write_new w v); [|done|by apply hash_value_None].
  fold o. rewrite Hnew. fold id. rewrite Hsum. simpl.
  split; [done|]. split.
  { rewrite op_read_unfold. by rewrite Hmiss. }
  split.
  - split_and!; simpl.
    + done.
    + intros u p Hu. destruct (decide (v = u)) as [->|Hne].
      * rewrite lookup_insert_eq in Hu. injection Hu as <-.
        apply lookup_insert_eq.
      * rewrite lookup_insert_ne in Hu by done.
        pose proof (Htab u p Hu).
        rewrite lookup_insert_ne by (unfold id, o; lia). by apply Hfwd.
    + intros i u Hu. destruct (decide (id = i)) as [<-|Hne].
      * rewrite lookup_insert_eq in Hu. injection Hu as <-.
        rewrite lookup_insert_eq. f_equal. unfold id. lia.
      * rewrite lookup_insert_ne in Hu by done.
        apply Hbwd in Hu. rewrite lookup_insert_ne; [done|].
        intros <-. congruence.
  - split; simpl.
    + rewrite length_app. simpl. unfold o. lia.
    + intros u p. destruct (decide (v = u)) as [<-|Hne].
      * rewrite lookup_insert_eq. split.
        -- intros [= <-]. exists (length seen). split.
           ++ rewrite lookup_app_r by lia. by rewrite Nat.sub_diag.
           ++ unfold o. lia.
        -- intros (n & Hn & ->). f_equal.
           destruct (decide (n < length seen)%nat) as [Hlt|Hge].
           ++ rewrite lookup_app_l in Hn by done.
              assert (is_Some (_transientOffsets w !! v)) as [? ?]; [|congruence].
              exists (Z.of_nat (S n)). apply Hnum. eauto.
           ++ apply lookup_lt_Some in Hn. rewrite length_app in Hn. simpl in Hn.
              unfold o. lia.
      * rewrite lookup_insert_ne by done. rewrite Hnum. split.
        -- intros (n & Hn & ->). exists n. split; [|done].
           apply lookup_app_l_Some. done.
        -- intros (n & Hn & ->). exists n. split; [|done].
           apply lookup_app_Some in Hn as [Hn|[_ Hn]]; [done|].
           apply list_lookup_singleton_Some in Hn as [_ ?]. done.
Qed.

Lemma read_all_step s (wi : list (Item T)) (n : nat) v s1 (w1 : list (Item T))
    vs s2 (w2 : list (Item T)) :
  op_read s wi = Some (v, s1, w1) →
  read_all s1 w1 n = Some (vs, s2, w2) →
  read_all s wi (S n) = Some (v :: vs, s2, w2).
Proof.
  unfold read_all, op_read. intros Hone Hmore. cbn [read_all_from].
  by rewrite Hone, Hmore.
Qed.

(** A whole run, from any pair of streamers in lock-step. *)
Lemma round_trip_from vs : ∀ w r seen rest,
  well_formed w → lock_step w r → numbered seen w →
  _lastPersistentID w + Z.of_nat (length (first_seen_from seen vs)) ≤ INT_MAX →
  ∃ r',
    read_all r ((write_all w vs).2 ++ rest) (length vs) = Some (vs, r', rest) ∧
    well_formed (write_all w vs).1 ∧
    lock_step (write_all w vs).1 r' ∧
    numbered (first_seen_from seen vs) (write_all w vs).1 ∧
    (length seen + count_values (write_all w vs).2
     = length (first_seen_from seen vs))%nat ∧
    count_ids (write_all w vs).2 = length vs ∧
    conforming (_lastPersistentID w + _lastTransientOffset w) (write_all w vs).2.
Proof.
  induction vs as [|v vs IH]; intros w r seen rest Hwf Hlock Hnum Hbound.
  { exists r. simpl. split_and!; try done; unfold count_values, wire_bits; simpl; lia. }
  rewrite first_seen_from_cons in Hbound |- *.
  rewrite write_all_cons. simpl fst. simpl snd. rewrite <- app_assoc.
  destruct (_transientOffsets w !! v) as [o|] eqn:Ho.
  - (* a value the writer has sent before *)
    assert (Hin : v ∈ seen).
    { apply (numbered_elem_of seen w v Hnum). eauto. }
    rewrite decide_True in Hbound |- * by done.
    destruct (step_repeat w r v o ((write_all w vs).2 ++ rest) Hwf Hlock Ho)
      as [Hw Hr].
    rewrite Hw. simpl fst. simpl snd.
    destruct (IH w r seen rest Hwf Hlock Hnum Hbound)
      as (r' & Hread & Hwf' & Hlock' & Hnum' & Hcv & Hci & Hconf).
    exists r'. split_and!; try done.
    + exact (read_all_step _ _ _ _ _ _ _ _ _ Hr Hread).
    + unfold count_ids in *. rewrite wire_bits_app. simpl. lia.
    + destruct Hwf as (Hp & Ht & Hm & Htab). pose proof (Htab v o Ho) as Hrange.
      cbn [app conforming]. split_and!; [lia|lia|lia|].
      by rewrite Z.max_l by lia.
  - (* a value the writer sends for the first time *)
    assert (Hnotin : v ∉ seen).
    { intros Hin. apply (numbered_elem_of seen w v Hnum) in Hin as [? ?]. congruence. }
    rewrite decide_False in Hbound |- * by done.
    assert (Hroom : has_room w).
    { unfold has_room. destruct Hnum as [Hlen _].
      pose proof (first_seen_from_length vs (seen ++ [v])) as Hle.
      rewrite length_app in Hle. simpl in Hle. lia. }
    pose proof (step_new w r v seen ((write_all (op_write w v).1 vs).2 ++ rest)
                  Hwf Hroom Hlock Hnum Ho) as Hstep.
    cbv zeta in Hstep. destruct Hstep as (Hw & Hr & Hlock1 & Hnum1).
    pose proof (well_formed_write w v Hwf Hroom) as Hwf1.
    pose proof (op_write_frame w v) as (Hlp1 & _).
    rewrite <- Hlp1 in Hbound.
    destruct (IH _ _ _ rest Hwf1 Hlock1 Hnum1 Hbound)
      as (r' & Hread & Hwf' & Hlock' & Hnum' & Hcv & Hci & Hconf).
    assert (Hlto1 : _lastTransientOffset (op_write w v).1 = _lastTransientOffset w + 1).
    { destruct Hnum1 as [Hlen1 _]. destruct Hnum as [Hlen _].
      rewrite Hlen1, Hlen, length_app. simpl. lia. }
    rewrite Hlp1, Hlto1 in Hconf.
    exists r'. rewrite Hw. split_and!; try done.
    + exact (read_all_step _ _ _ _ _ _ _ _ _ Hr Hread).
    + unfold count_values in *. rewrite wire_bits_app.
      rewrite length_app in Hcv. simpl in *. lia.
    + unfold count_ids in *. rewrite wire_bits_app. simpl. lia.
    + destruct Hwf as (Hp & Ht & Hm & Htab). unfold has_room in Hroom.
      cbn [app conforming]. split_and!; [lia|lia|lia|].
      rewrite Z.max_r by lia.
      by replace (_lastPersistentID w + _lastTransientOffset w + 1)
        with (_lastPersistentID w + (_lastTransientOffset w + 1)) by lia.
Qed.

Lemma lock_step_construct : lock_step (construct (T := T)) construct.
Proof.
  unfold lock_step, construct. simpl. split_and!.
  - intros v. by apply hash_value_None.
  - intros v o. by rewrite lookup_empty.
  - intros id v. by rewrite lookup_empty.
Qed.

Lemma numbered_construct : numbered [] (construct (T := T)).
Proof.
  unfold numbered, construct. simpl. split; [done|].
  intros v o. rewrite lookup_empty. split; [done|].
  by intros (n & Hn & _).
Qed.

(** *** From transfers to bits *)

Section OnBits.

Variable IdState : Type.
Variable id_write : IdState → Z → IdState * list bool.
Variable id_read : IdState → list bool → option (Z * IdState * list bool).
Variable value_write : T → list bool.
Variable value_read : list bool → option (T * list bool).
Variable c0 : IdState.

Hypothesis id_round_trip : faithful_id_coder IdState id_write id_read c0.
Hypothesis value_round_trip : faithful_value_encoding value_write value_read.

Abbreviation encode := (RVS.encode IdState id_write value_write).
Abbreviation bits_take_id := (RVS.bits_take_id IdState id_read).
Abbreviation bits_take_value := (RVS.bits_take_value IdState value_read).
Abbreviation read_all_bits := (RVS.read_all_bits IdState id_read value_read).
Abbreviation fed := (RVS.fed IdState id_write c0).

Lemma encode_id (c : IdState) id (w : list (Item T)) :
  encode c (ItemID id :: w) =
    ((encode (id_write c id).1 w).1,
     (id_write c id).2 ++ (encode (id_write c id).1 w).2).
Proof.
  simpl. destruct (id_write c id) as [c1 bits1]. simpl.
  by destruct (encode c1 w) as [c2 bits2].
Qed.

Lemma encode_value (c : IdState) v (w : list (Item T)) :
  encode c (ItemValue v :: w) = ((encode c w).1, value_write v ++ (encode c w).2).
Proof. simpl. by destruct (encode c w) as [c2 bits2]. Qed.

(** One read from the bits a wire was encoded to does what the read from
    the wire does, and leaves the bits of the rest of the wire; the reader's
    ID coder follows the writer's. *)
Lemma op_read_bits s (w : list (Item T)) v s1 (w1 : list (Item T)) (c : IdState)
    (h : Z) (rest : list bool) :
  fed c h → conforming h w →
  op_read s w = Some (v, s1, w1) →
  ∃ c1 h1,
    op_read_from bits_take_id bits_take_value s (c, (encode c w).2 ++ rest)
      = Some (v, s1, (c1, (encode c1 w1).2 ++ rest)) ∧
    (encode c1 w1).1 = (encode c w).1 ∧
    fed c1 h1 ∧ conforming h1 w1.
Proof.
  intros Hfed Hconf. rewrite op_read_unfold.
  destruct w as [|[id|?] w0]; [done| |done].
  cbn [conforming] in Hconf. destruct Hconf as (Hid & Hmax & Hconf0).
  assert (Htake : bits_take_id (c, (encode c (ItemID id :: w0)).2 ++ rest)
                  = Some (id, ((id_write c id).1,
                               (encode (id_write c id).1 w0).2 ++ rest))).
  { unfold RVS.bits_take_id. rewrite encode_id. cbn [fst snd].
    rewrite <- app_assoc. by rewrite (id_round_trip c h id _ Hfed Hid Hmax). }
  assert (Hfed1 : fed (id_write c id).1 (Z.max h id)) by by constructor.
  unfold op_read_from. rewrite Htake.
  destruct (_values s !! id) as [x|].
  - intros [= <- <- <-]. exists (id_write c id).1, (Z.max h id).
    split_and!; [done| |done|done]. by rewrite encode_id.
  - destruct w0 as [|[?|y] w2]; [done|done|].
    cbn [conforming] in Hconf0.
    intros [= <- <- <-]. exists (id_write c id).1, (Z.max h id).
    unfold RVS.bits_take_value. rewrite encode_value. cbn [fst snd].
    rewrite <- app_assoc, value_round_trip.
    split_and!; [done| |done|done]. by rewrite encode_id, encode_value.
Qed.

Lemma read_all_bits_of_wire (n : nat) : ∀ s (w : list (Item T)) vs s' (w' : list (Item T))
    (c : IdState) (h : Z) (rest : list bool),
  fed c h → conforming h w →
  read_all s w n = Some (vs, s', w') →
  ∃ c',
    read_all_bits s c ((encode c w).2 ++ rest) n
      = Some (vs, s', (c', (encode c' w').2 ++ rest)) ∧
    (encode c' w').1 = (encode c w).1.
Proof.
  unfold RVS.read_all_bits, read_all.
  induction n as [|n IH]; intros s w vs s' w' c h rest Hfed Hconf Hread.
  - injection Hread as <- <- <-. by exists c.
  - cbn [read_all_from] in Hread |- *.
    destruct (op_read_from take_id take_value s w) as [[[v s1] w1]|] eqn:Hone; [|done].
    destruct (read_all_from take_id take_value s1 w1 n) as [[[vs1 s2] w2]|] eqn:Hmore;
      [|done].
    injection Hread as <- <- <-.
    destruct (op_read_bits s w v s1 w1 c h rest Hfed Hconf Hone)
      as (c1 & h1 & Hbits & Hc1 & Hfed1 & Hconf1).
    destruct (IH s1 w1 vs1 s2 w2 c1 h1 rest Hfed1 Hconf1 Hmore) as (c' & Hrun & Hc').
    exists c'. rewrite Hbits, Hrun. split; [done|]. by rewrite Hc'.
Qed.

(** C1. Let the ID coder round-trip the identifiers it is made for and the
    value encoding round-trip, faithfully.  Any sequence of values written
    through a constructed streamer hands the ID coder identifiers of its
    pattern only, and is read back from the resulting bits, in order and in
    full, by a constructed streamer; the reader takes exactly the bits the
    writer emitted, leaves what follows on the stream, and its ID coder ends
    in the state of the writer's.  The n-th distinct value written, counting
    from one, has transient offset [n] in the writer, and the reader's cache
    holds exactly the identifiers from 1 to the number of distinct values,
    the n-th distinct value under identifier [n].  One identifier travels
    per value written and one full value per distinct value.  (The number
    of distinct values is within the range of [int].) *)
Theorem round_trip_lock_step vs (rest : list bool) :
  Z.of_nat (length (first_seen vs)) ≤ INT_MAX →
  let written := write_all construct vs in
  let stream := encode c0 written.2 in
  ∃ r,
    read_all_bits construct c0 (stream.2 ++ rest) (length vs)
      = Some (vs, r, (stream.1, rest)) ∧
    conforming 0 written.2 ∧
    (∀ (n : nat) v, first_seen vs !! n = Some v →
       _transientOffsets written.1 !! v = Some (Z.of_nat (S n))) ∧
    (∀ id v, _values r !! id = Some v ↔
       ∃ n : nat, id = Z.of_nat (S n) ∧ first_seen vs !! n = Some v) ∧
    count_ids written.2 = length vs ∧
    count_values written.2 = length (first_seen vs).
Proof.
  intros Hbound written stream.
  destruct (round_trip_from vs construct construct [] [])
    as (r & Hread & Hwf & Hlock & Hnum & Hcv & Hci & Hconf).
  { apply well_formed_construct. }
  { apply lock_step_construct. }
  { apply numbered_construct. }
  { simpl. fold (first_seen vs). lia. }
  fold (first_seen vs) in Hnum, Hcv.
  fold written in Hread, Hwf, Hlock, Hnum, Hcv, Hci, Hconf.
  rewrite app_nil_r in Hread. simpl in Hconf.
  destruct (read_all_bits_of_wire (length vs) construct written.2 vs r [] c0 0 rest)
    as (c' & Hbits & Hc'); [constructor|done|done|].
  simpl in Hbits, Hc'. fold stream in Hbits, Hc'. subst c'.
  destruct (write_all_frame vs construct) as (Hlp & _). fold written in Hlp.
  simpl in Hlp. destruct Hlock as (_ & Hfwd & Hbwd). destruct Hnum as [_ Hnum].
  rewrite Hlp in Hfwd, Hbwd.
  exists r. split_and!; try done.
  - intros n v Hn. apply Hnum. eauto.
  - intros id v. split.
    + intros Hid. apply Hbwd, Hnum in Hid as (n & Hn & Hid).
      exists n. split; [lia|done].
    + intros (n & -> & Hn).
      replace (Z.of_nat (S n)) with (0 + Z.of_nat (S n)) by lia.
      apply Hfwd, Hnum. eauto.
Qed.

End OnBits.

End RoundTrip.

(** ** Bitstream: no mode is kept, none is checked *)

Section ModeExclusivity.

Import RVS Bitstream.

Variable Transport : Type.
Variable IdState : Type.
Variable id_write : IdState → Transport → Z → IdState * Transport.
Variable id_read : IdState → Transport → option (Z * IdState * Transport).
Variable attribute_write : Transport → AttributePointer → Transport.
Variable attribute_read : Transport → option (AttributePointer * Transport).

Implicit Types (bs : Bitstream Transport IdState) (a : AttributePointer).

(** What a write through the attribute streamer leaves behind. *)
Lemma write_attribute_unfold bs a :
  let wrote := write_attribute id_write attribute_write bs a in
  let written := op_write (_attributeStreamer bs) a in
  _attributeStreamer wrote = written.1 ∧
  (_attributeStreamer_idStreamer wrote, _transport wrote)
  = transfer id_write attribute_write (_attributeStreamer_idStreamer bs) (_transport bs)
      written.2 ∧
  _classNameStreamer wrote = _classNameStreamer bs ∧
  _classNameStreamer_idStreamer wrote = _classNameStreamer_idStreamer bs.
Proof.
  unfold write_attribute, getAttributeStreamer.
  destruct (op_write (_attributeStreamer bs) a) as [s' out].
  cbn [fst snd].
  destruct (transfer id_write attribute_write (_attributeStreamer_idStreamer bs)
              (_transport bs) out) as [c t].
  done.
Qed.


End ModeExclusivity.

(** ** IDStreamer: the width of an identifier *)

Section IDStreamerFacts.

Import IDStreamer.

Lemma to_bits_length (n : nat) (z : Z) : length (to_bits n z) = n.
Proof. unfold to_bits. by rewrite length_map, length_seq. Qed.

Lemma to_bits_S (n : nat) (z : Z) :
  to_bits (S n) z = Z.testbit z 0 :: to_bits n (z `div` 2).
Proof.
  unfold to_bits. rewrite <- cons_seq. simpl. f_equal.
  rewrite <- fmap_S_seq, <- list_fmap_compose.
  apply list_fmap_ext. intros _ i _. unfold compose.
  rewrite Nat2Z.inj_succ. symmetry. apply Z.div2_bits. lia.
Qed.

(** Reading back the [n] low-order bits of [z] gives [z] modulo 2^n. *)
Lemma of_bits_to_bits (n : nat) : ∀ z, of_bits (to_bits n z) = z `mod` 2 ^ Z.of_nat n.
Proof.
  induction n as [|n IH]; intros z.
  - simpl. by rewrite Z.mod_1_r.
  - rewrite to_bits_S. cbn [of_bits]. rewrite IH.
    rewrite Nat2Z.inj_succ, Z.pow_succ_r by lia.
    rewrite Z.rem_mul_r by lia. by rewrite Z.bit0_mod.
Qed.

(** The width is enough for the window of legal identifiers, and no
    smaller width is. *)
Lemma width_spec (k : Z) :
  -1 ≤ k →
  0 ≤ width k ∧ k + 2 ≤ 2 ^ width k ∧ ∀ m, 0 ≤ m < width k → 2 ^ m < k + 2.
Proof.
  intros Hk. unfold width.
  destruct (decide (k = -1)) as [->|Hne].
  - change (Z.log2_up (-1 + 2)) with 0. split_and!; [done|done|]. lia.
  - pose proof (Z.log2_up_spec (k + 2) ltac:(lia)) as [Hlo Hhi].
    pose proof (Z.log2_up_nonneg (k + 2)).
    split_and!; [done|done|].
    intros m Hm. eapply Z.le_lt_trans; [|exact Hlo].
    apply Z.pow_le_mono_r; lia.
Qed.

(** An identifier of the window is read back as it was written, and the
    two sides advance alike. *)
Lemma read_write (k id : Z) (rest : list bool) :
  -1 ≤ k → 0 ≤ id ≤ k + 1 →
  read k ((write k id).2 ++ rest) = Some (id, (write k id).1, rest).
Proof.
  intros Hk Hid. unfold read, write. simpl.
  destruct (width_spec k Hk) as (Hw0 & Hfit & _).
  rewrite decide_True by (rewrite length_app, to_bits_length; lia).
  rewrite take_app_length' by (by rewrite to_bits_length).
  rewrite drop_app_length' by (by rewrite to_bits_length).
  rewrite of_bits_to_bits, Z2Nat.id by done.
  rewrite Z.mod_small by lia. done.
Qed.

Lemma write_widths_reuse (k : Z) (ids : list Z) :
  Forall (λ id, id ≠ k + 1) ids →
  write_widths k ids = replicate (length ids) (Z.to_nat (width k)).
Proof.
  induction 1 as [|id ids Hid _ IH]; [done|].
  simpl. unfold advance. rewrite decide_False by done.
  by rewrite to_bits_length, IH.
Qed.

(** C2. With the highest assigned identifier at [k], a write puts exactly
    [ceil(log2(k + 2))] bits on the stream and a read takes exactly that
    many, failing only when the stream is shorter; the width stays the
    same over any run of identifiers that are not new; it is the least
    width that tells the [k + 2] legal identifiers apart.  Writing
    0, 1, 2, 3, 4 from the initial state, each for the first time, uses
    0, 1, 2, 2, 3 bits, and so does reading them back. *)
Theorem minimal_width (k id : Z) (bits : list bool) (ids : list Z) :
  -1 ≤ k →
  let n := Z.to_nat (Z.log2_up (k + 2)) in
  length (write k id).2 = n ∧
  (if decide (n ≤ length bits)%nat
   then ∃ id', read k bits = Some (id', advance k id', drop n bits) ∧
               length bits = (n + length (drop n bits))%nat
   else read k bits = None) ∧
  (Forall (λ i, i ≠ k + 1) ids → write_widths k ids = replicate (length ids) n) ∧
  k + 2 ≤ 2 ^ Z.of_nat n ∧
  (∀ m : nat, (m < n)%nat → 2 ^ Z.of_nat m < k + 2) ∧
  write_widths initial [0; 1; 2; 3; 4] = [0; 1; 2; 2; 3]%nat ∧
  read_widths initial (write_bits initial [0; 1; 2; 3; 4]) 5 = Some [0; 1; 2; 2; 3]%nat.
Proof.
  intros Hk n. destruct (width_spec k Hk) as (Hw0 & Hfit & Hmin).
  fold (width k) in n. split_and!.
  - unfold write. simpl. apply to_bits_length.
  - unfold read. fold n. destruct (decide (n ≤ length bits)%nat) as [Hle|Hgt]; [|done].
    eexists. split; [done|]. rewrite length_drop. lia.
  - apply write_widths_reuse.
  - unfold n. by rewrite Z2Nat.id.
  - intros m Hm. apply Hmin. unfold n in Hm. lia.
  - vm_compute. done.
  - vm_compute. done.
Qed.

Lemma width_step (h : Z) : 0 ≤ h → width h ≤ width (h + 1) ≤ width h + 1.
Proof.
  intros Hh. unfold width. split.
  - apply Z.log2_up_le_mono. lia.
  - etrans; [apply (Z.log2_up_le_mono _ (2 * (h + 2))); lia|].
    rewrite Z.log2_up_double by lia. lia.
Qed.

End IDStreamerFacts.

(** ** De-duplication in bits, on the ID coder of the spec *)

Section DeduplicationInBits.

Context {T : Type} `{Countable T}.
Variable value_write : T → list bool.

Import RVS IDStreamer.

(** A new value written three times in a row, the ID coder having seen the
    identifiers handed out so far: the first occurrence takes the width of
    the coder plus the value, the second and third take the width of the
    coder after the new identifier, at most one bit more than before.  The
    later occurrences are equal in bits; they are fewer than the first as
    soon as the value takes two bits or more. *)
Lemma deduplication_in_bits (s : RepeatedValueStreamer T) (v : T) :
  well_formed s →
  has_room s →
  hash_value (_persistentIDs s) v = 0 →
  hash_value (_transientOffsets s) v = 0 →
  let h := _lastPersistentID s + _lastTransientOffset s in
  let first := op_write s v in
  let second := op_write first.1 v in
  let third := op_write second.1 v in
  let e1 := encode Z write value_write h first.2 in
  let e2 := encode Z write value_write e1.1 second.2 in
  let e3 := encode Z write value_write e2.1 third.2 in
  length e1.2 = (Z.to_nat (width h) + length (value_write v))%nat ∧
  length e2.2 = Z.to_nat (width (h + 1)) ∧
  length e3.2 = length e2.2 ∧
  (length e2.2 ≤ Z.to_nat (width h) + 1)%nat ∧
  ((2 ≤ length (value_write v))%nat → (length e2.2 < length e1.2)%nat).
Proof.
  intros Hwf Hroom Hp0 Ht0 h first second third.
  destruct (op_write_again s v [] Hwf Hroom Hp0 Ht0) as (Hfirst & Hsecond & _).
  fold first in Hfirst, Hsecond. cbn [write_all fst] in Hsecond. fold second in Hsecond.
  assert (Hthird : third = second).
  { unfold third. rewrite Hsecond at 1. cbn [fst]. done. }
  destruct Hwf as (Hp & Ht & _). fold h.
  replace (_lastPersistentID s + (_lastTransientOffset s + 1)) with (h + 1)
    in Hfirst, Hsecond by (unfold h; lia).
  rewrite Hthird, Hsecond, Hfirst. cbn [fst snd RVS.encode write].
  unfold advance. rewrite decide_True by done.
  rewrite decide_False by lia. cbn [fst snd].
  rewrite !length_app, !to_bits_length. cbn [length].
  pose proof (width_step h ltac:(lia)) as [Hlo Hhi].
  pose proof (Z.log2_up_nonneg (h + 2)). fold (width h) in *.
  split_and!; lia.
Qed.

(** The ID coder of the spec, started with the highest identifier at zero,
    follows the transient counter of a streamer that has no persistent IDs:
    after any run of writes its highest identifier is the counter. *)
Lemma coder_follows_the_counter (vs : list T) : ∀ s : RepeatedValueStreamer T,
  well_formed s →
  (∀ v, hash_value (_persistentIDs s) v = 0) →
  _lastPersistentID s = 0 →
  _lastTransientOffset s + Z.of_nat (length vs) ≤ INT_MAX →
  (encode Z write value_write (_lastTransientOffset s) (write_all s vs).2).1
  = _lastTransientOffset (write_all s vs).1.
Proof.
  induction vs as [|v vs IH]; intros s Hwf Hp Hlp Hbound; [done|].
  rewrite write_all_cons. cbn [fst snd]. cbn [length] in Hbound.
  assert (Hwf' := Hwf). destruct Hwf' as (_ & Ht & _ & Htab).
  assert (Hroom : has_room s) by (unfold has_room; lia).
  pose proof (well_formed_write s v Hwf Hroom) as Hwf1.
  destruct (op_write_frame s v) as (Hlp1 & Hpers1 & _). rewrite Hlp in Hlp1.
  assert (Hp1 : ∀ u, hash_value (_persistentIDs (op_write s v).1) u = 0).
  { intros u. rewrite Hpers1. apply Hp. }
  specialize (IH (op_write s v).1 Hwf1 Hp1 Hlp1).
  destruct (_transientOffsets s !! v) as [o|] eqn:Ho.
  - pose proof (Htab v o Ho) as Hrange.
    assert (Hw : op_write s v = (s, [ItemID o])).
    { rewrite (op_write_repeat s v o); [|done|by apply hash_value_Some|lia].
      rewrite Hlp, Z.add_0_l. by rewrite wrap_int_id by (unfold INT_MAX in *; lia). }
    rewrite Hw in IH |- *. cbn [fst snd app] in IH |- *.
    cbn [RVS.encode write]. unfold advance at 1. rewrite decide_False by lia.
    destruct (encode Z write value_write (_lastTransientOffset s) (write_all s vs).2)
      as [c2 bits2] eqn:E. cbn [fst] in IH |- *. apply IH. lia.
  - assert (Hw : op_write s v =
                 (MkRepeatedValueStreamer (_lastPersistentID s) (_lastTransientOffset s + 1)
                    (_persistentIDs s)
                    (<[v := _lastTransientOffset s + 1]> (_transientOffsets s)) (_values s),
                  [ItemID (_lastTransientOffset s + 1); ItemValue v])).
    { rewrite (op_write_new s v); [|done|by apply hash_value_None].
      rewrite (wrap_int_id (_lastTransientOffset s + 1)) by (unfold INT_MAX in *; lia).
      rewrite Hlp, Z.add_0_l. by rewrite wrap_int_id by (unfold INT_MAX in *; lia). }
    rewrite Hw in IH |- *. cbn [fst snd app _lastTransientOffset] in IH |- *.
    cbn [RVS.encode write]. unfold advance at 1. rewrite decide_True by done.
    destruct (encode Z write value_write (_lastTransientOffset s + 1)
                (write_all
                   (MkRepeatedValueStreamer (_lastPersistentID s)
                      (_lastTransientOffset s + 1) (_persistentIDs s)
                      (<[v := _lastTransientOffset s + 1]> (_transientOffsets s))
                      (_values s)) vs).2)
      as [c2 bits2] eqn:E. cbn [fst] in IH |- *. apply IH. lia.
Qed.


End DeduplicationInBits.

(** ** Framebuffer: counting render buffers, attaching one *)

Section FramebufferFacts.

Import Framebuffer.

Variable MAX_NUM_RENDER_BUFFERS : nat.
Variable getMaxNumRenderBuffers : Z.

Implicit Types (fb : Framebuffer) (slot subresource : Z).
Implicit Types (texture : TexturePointer) (v : list TexturePointer).

Lemma wrap_int_mod (z : Z) : wrap_int z `mod` 2 ^ 32 = z `mod` 2 ^ 32.
Proof.
  unfold wrap_int. rewrite Zminus_mod_idemp_l. f_equal. lia.
Qed.

Lemma lnot_wrap_int_mod (z : Z) :
  Z.lnot (wrap_int z) `mod` 2 ^ 32 = Z.lnot z `mod` 2 ^ 32.
Proof.
  unfold Z.lnot, wrap_int.
  rewrite (Z.mod_eq (z + 2 ^ 31) (2 ^ 32)) by lia.
  replace (Z.pred (- (z + 2 ^ 31 - 2 ^ 32 * ((z + 2 ^ 31) `div` 2 ^ 32) - 2 ^ 31)))
    with (Z.pred (- z) + ((z + 2 ^ 31) `div` 2 ^ 32) * 2 ^ 32) by lia.
  apply Z_mod_plus_full.
Qed.

(** The loop of [getNumRenderBuffers], from any count so far. *)
Lemma count_loop v : ∀ nb : Z,
  0 ≤ nb → nb + Z.of_nat (length v) ≤ UINT32_MAX →
  fold_left (λ nb (i : TexturePointer),
               wrap_uint32 (nb + (if i is Some _ then 0 else 1))) v nb
  = nb + Z.of_nat (count_null v).
Proof.
  unfold count_null.
  induction v as [|i v IH]; intros nb Hnb Hmax; simpl in *; [lia|].
  assert (Hlen : (length (filter (λ i, i = None) v) ≤ length v)%nat)
    by apply length_filter.
  destruct i as [t|].
  - rewrite filter_cons_False by done.
    rewrite wrap_uint32_id by lia. rewrite IH by lia. lia.
  - rewrite filter_cons_True by done.
    rewrite wrap_uint32_id by lia. rewrite IH by lia. simpl. lia.
Qed.

Lemma getNumRenderBuffers_count fb :
  Z.of_nat (length (_renderBuffers fb)) ≤ UINT32_MAX →
  getNumRenderBuffers fb = Z.of_nat (count_null (_renderBuffers fb)).
Proof.
  intros Hlen. unfold getNumRenderBuffers. rewrite count_loop; lia.
Qed.

Lemma count_null_replicate (n : nat) : count_null (replicate n None) = n.
Proof.
  unfold count_null. induction n as [|n IH]; [done|].
  cbn [replicate]. rewrite filter_cons_True by done. simpl. by rewrite IH.
Qed.

(** Filling an empty slot takes one from the number of empty slots. *)
Lemma count_null_fill v (i : nat) (t : Texture.Texture) :
  v !! i = Some None →
  S (count_null (<[i := Some t]> v)) = count_null v.
Proof.
  intros Hi. unfold count_null.
  pose proof (lookup_lt_Some _ _ _ Hi) as Hlt.
  rewrite insert_take_drop by done.
  rewrite <- (take_drop_middle v i None Hi) at 3.
  rewrite !filter_app, !length_app.
  rewrite filter_cons_False by done. rewrite filter_cons_True by done.
  simpl. lia.
Qed.

Lemma create_renderBuffers :
  _renderBuffers (create MAX_NUM_RENDER_BUFFERS)
  = replicate MAX_NUM_RENDER_BUFFERS None.
Proof.
  unfold create, resize. simpl. rewrite take_nil. simpl. f_equal. lia.
Qed.

Lemma setRenderBuffer_refused fb slot texture subresource :
  refused getMaxNumRenderBuffers fb slot texture = true →
  setRenderBuffer getMaxNumRenderBuffers fb slot texture subresource = (-1, fb).
Proof.
  unfold refused, setRenderBuffer, validateTargetCompatibility.
  destruct (isSwapchain fb); [done|]. simpl.
  destruct (decide (getMaxNumRenderBuffers ≤ slot)).
  { by rewrite bool_decide_eq_true_2. }
  rewrite bool_decide_eq_false_2 by done. simpl.
  destruct texture as [t|]; [|done].
  destruct (decide (Texture.getType t = Texture.TEX_1D)); [done|].
  rewrite bool_decide_eq_false_2 by done. simpl.
  destruct (isEmpty fb); [done|]. simpl.
  repeat case_bool_decide; simpl; done.
Qed.

(** What the call does when none of the guards fires. *)
Lemma setRenderBuffer_accepted fb slot texture subresource :
  refused getMaxNumRenderBuffers fb slot texture = false →
  setRenderBuffer getMaxNumRenderBuffers fb slot texture subresource =
    (wrap_int slot,
     let i := Z.to_nat slot in
     let mask := wrap_int (Z.shiftl 1 slot) in
     let cleared := Z.land (_buffersMask fb) (wrap_uint32 (Z.lnot mask)) in
     let sized := updateSize fb texture in
     MkFramebuffer (_swapchain fb) (_frameCount fb)
       (<[i := texture]> (_renderBuffers fb))
       (<[i := subresource]> (_renderBuffersSubresource fb))
       (_depthStencilBuffer fb) (_depthStencilBufferSubresource fb)
       (if texture is Some _ then Z.lor cleared (wrap_uint32 mask) else cleared)
       (_width sized) (_height sized) (_numSamples sized)).
Proof.
  unfold refused, setRenderBuffer, validateTargetCompatibility.
  destruct (isSwapchain fb) eqn:Hsc; [done|]. simpl.
  destruct (decide (getMaxNumRenderBuffers ≤ slot)).
  { by rewrite bool_decide_eq_true_2. }
  rewrite bool_decide_eq_false_2 by done. simpl.
  intros Hok.
  assert (Hguard : (if texture is Some t
                    then negb (if decide (Texture.getType t = Texture.TEX_1D) then false
                               else if isEmpty fb then true
                               else if bool_decide (Texture.getWidth t = getWidth fb)
                                       && bool_decide (Texture.getHeight t = getHeight fb)
                                       && bool_decide (Texture.getNumSamples t = getNumSamples fb)
                                    then true else false)
                    else false) = false).
  { destruct texture as [t|]; [|done].
    destruct (decide (Texture.getType t = Texture.TEX_1D)).
    { by rewrite bool_decide_eq_true_2 in Hok. }
    rewrite bool_decide_eq_false_2 in Hok by done. simpl in Hok.
    destruct (isEmpty fb); [done|]. simpl in Hok.
    repeat case_bool_decide; simpl in *; done. }
  rewrite Hguard. f_equal.
  destruct (_renderBuffers fb !! Z.to_nat slot) as [[t0|]|] eqn:Hslot;
    unfold updateSize, isEmpty; simpl;
    destruct (bool_decide (_buffersMask fb = 0)); simpl;
    destruct texture as [t|]; simpl;
    rewrite ?list_insert_insert_eq; done.
Qed.

(** Bit [slot] of the mask after the update, and the other bits. *)
Lemma mask_update (bm slot b : Z) (attach : bool) :
  0 ≤ slot < 32 → 0 ≤ b < 32 →
  let mask := wrap_int (Z.shiftl 1 slot) in
  let cleared := Z.land bm (wrap_uint32 (Z.lnot mask)) in
  Z.testbit (if attach then Z.lor cleared (wrap_uint32 mask) else cleared) b
  = if decide (b = slot) then attach else Z.testbit bm b.
Proof.
  intros Hslot Hb mask cleared.
  assert (Hm : Z.testbit (wrap_uint32 mask) b = bool_decide (b = slot)).
  { unfold wrap_uint32, mask. rewrite wrap_int_mod, Z.shiftl_1_l.
    rewrite Z.mod_pow2_bits_low by lia.
    case_bool_decide as Heq.
    - subst b. apply Z.pow2_bits_true. lia.
    - apply Z.pow2_bits_false. lia. }
  assert (Hn : Z.testbit (wrap_uint32 (Z.lnot mask)) b = negb (bool_decide (b = slot))).
  { unfold wrap_uint32, mask. rewrite lnot_wrap_int_mod, Z.shiftl_1_l.
    rewrite Z.mod_pow2_bits_low by lia. rewrite Z.lnot_spec by lia. f_equal.
    case_bool_decide as Heq.
    - subst b. apply Z.pow2_bits_true. lia.
    - apply Z.pow2_bits_false. lia. }
  assert (Hc : Z.testbit cleared b = Z.testbit bm b && negb (bool_decide (b = slot))).
  { unfold cleared. by rewrite Z.land_spec, Hn. }
  destruct attach; rewrite ?Z.lor_spec, Hc, ?Hm;
    destruct (decide (b = slot)) as [Heq|Hne];
    rewrite ?(bool_decide_eq_true_2 _ Heq), ?(bool_decide_eq_false_2 _ Hne);
    simpl; by rewrite ?andb_false_r, ?andb_true_r, ?orb_true_r, ?orb_false_r.
Qed.

(** C9. [getNumRenderBuffers] returns the number of slots that hold a null
    pointer: all [MAX_NUM_RENDER_BUFFERS] of them for a framebuffer made by
    [create()], and one fewer after each successful [setRenderBuffer] of a
    texture that is not null into a slot that was empty.  (The number of
    slots fits the [uint32] the loop counts in.) *)
Theorem getNumRenderBuffers_counts_empty_slots fb slot (t : Texture.Texture) subresource :
  Z.of_nat (length (_renderBuffers fb)) ≤ UINT32_MAX →
  Z.of_nat MAX_NUM_RENDER_BUFFERS ≤ UINT32_MAX →
  getNumRenderBuffers fb = Z.of_nat (count_null (_renderBuffers fb)) ∧
  getNumRenderBuffers (create MAX_NUM_RENDER_BUFFERS) = Z.of_nat MAX_NUM_RENDER_BUFFERS ∧
  ((setRenderBuffer getMaxNumRenderBuffers fb slot (Some t) subresource).1 ≠ -1 →
   _renderBuffers fb !! Z.to_nat slot = Some None →
   getNumRenderBuffers (setRenderBuffer getMaxNumRenderBuffers fb slot (Some t) subresource).2
   = getNumRenderBuffers fb - 1).
Proof.
  intros Hlen Hmax. split_and!.
  - by apply getNumRenderBuffers_count.
  - rewrite getNumRenderBuffers_count; rewrite create_renderBuffers.
    + by rewrite count_null_replicate.
    + by rewrite length_replicate.
  - intros Hok Hslot.
    destruct (refused getMaxNumRenderBuffers fb slot (Some t)) eqn:Href.
    { rewrite setRenderBuffer_refused in Hok by done. done. }
    rewrite setRenderBuffer_accepted by done. cbn [snd].
    rewrite (getNumRenderBuffers_count fb) by done.
    rewrite getNumRenderBuffers_count; cbn [_renderBuffers].
    + rewrite <- (count_null_fill (_renderBuffers fb) (Z.to_nat slot) t Hslot). lia.
    + by rewrite length_insert.
Qed.

(** C10. When the framebuffer is a swapchain, or the slot is not below
    [getMaxNumRenderBuffers()], or the texture is not null and fails the
    compatibility check, [setRenderBuffer] returns -1 and the framebuffer
    is what it was.  Otherwise it returns the slot, the slot holds the
    texture and the subresource, and bit [slot] of the mask is set exactly
    when the texture is not null; the other slots and the other bits of the
    mask are what they were.  (For the stores, slots are below 32, the
    width of the mask, and inside both vectors, as they are for a
    framebuffer made by [create()] with eight render buffers.) *)
Theorem setRenderBuffer_error_atomicity fb slot texture subresource :
  let result := setRenderBuffer getMaxNumRenderBuffers fb slot texture subresource in
  if refused getMaxNumRenderBuffers fb slot texture
  then result = (-1, fb)
  else
    0 ≤ slot →
    getMaxNumRenderBuffers ≤ 32 →
    getMaxNumRenderBuffers ≤ Z.of_nat (length (_renderBuffers fb)) →
    getMaxNumRenderBuffers ≤ Z.of_nat (length (_renderBuffersSubresource fb)) →
    result.1 = slot ∧
    _renderBuffers result.2 !! Z.to_nat slot = Some texture ∧
    _renderBuffersSubresource result.2 !! Z.to_nat slot = Some subresource ∧
    Z.testbit (_buffersMask result.2) slot = bool_decide (is_Some texture) ∧
    (∀ j : nat, j ≠ Z.to_nat slot →
       _renderBuffers result.2 !! j = _renderBuffers fb !! j ∧
       _renderBuffersSubresource result.2 !! j = _renderBuffersSubresource fb !! j) ∧
    (∀ b, 0 ≤ b < 32 → b ≠ slot →
       Z.testbit (_buffersMask result.2) b = Z.testbit (_buffersMask fb) b).
Proof.
  intros result. unfold result.
  destruct (refused getMaxNumRenderBuffers fb slot texture) eqn:Href.
  { by apply setRenderBuffer_refused. }
  intros Hslot0 Hmax Hrb Hrbs.
  rewrite setRenderBuffer_accepted by done. cbn [fst snd].
  assert (Hlt : slot < getMaxNumRenderBuffers).
  { unfold refused in Href.
    destruct (isSwapchain fb); [done|]. simpl in Href.
    case_bool_decide; [done|lia]. }
  cbn [_renderBuffers _renderBuffersSubresource _buffersMask]. split_and!.
  - apply wrap_int_id. unfold INT_MAX. lia.
  - apply list_lookup_insert_eq. lia.
  - apply list_lookup_insert_eq. lia.
  - pose proof (mask_update (_buffersMask fb) slot slot
                  (bool_decide (is_Some texture)) ltac:(lia) ltac:(lia)) as Hbit.
    cbv zeta in Hbit. rewrite decide_True in Hbit by done.
    destruct texture as [t|]; exact Hbit.
  - intros j Hj. by rewrite !list_lookup_insert_ne.
  - intros b Hb Hne.
    pose proof (mask_update (_buffersMask fb) slot b
                  (bool_decide (is_Some texture)) ltac:(lia) Hb) as Hbit.
    cbv zeta in Hbit. rewrite decide_False in Hbit by done.
    destruct texture as [t|]; exact Hbit.
Qed.

End FramebufferFacts.

(** * Further properties of the Framebuffer *)

Section FramebufferAssembly.

Import Framebuffer.

Variable MAX_NUM_RENDER_BUFFERS : nat.
Variable getMaxNumRenderBuffers : Z.
Variable BUFFER_DEPTHSTENCIL : Z.

Implicit Types (fb : Framebuffer) (slot subresource : Z).
Implicit Types (texture : TexturePointer) (t : Texture.Texture).

Lemma isSwapchain_false fb : isSwapchain fb = false ↔ _swapchain fb = None.
Proof.
  unfold isSwapchain. rewrite bool_decide_eq_false.
  destruct (_swapchain fb); split; try done.
  - intros Hn. by destruct Hn.
  - intros _ Hn. by apply Hn.
Qed.

(** What passing the compatibility check tells of a texture. *)
Lemma compatible_texture fb t :
  bool_decide (Texture.getType t = Texture.TEX_1D)
  || negb (isEmpty fb)
     && (bool_decide (Texture.getWidth t ≠ getWidth fb)
         || bool_decide (Texture.getHeight t ≠ getHeight fb)
         || bool_decide (Texture.getNumSamples t ≠ getNumSamples fb)) = false →
  Texture.getType t ≠ Texture.TEX_1D ∧
  (isEmpty fb = false →
     Texture.getWidth t = getWidth fb ∧
     Texture.getHeight t = getHeight fb ∧
     Texture.getNumSamples t = getNumSamples fb).
Proof.
  intros Hok. apply orb_false_iff in Hok as [H1d Hsize].
  apply bool_decide_eq_false in H1d. split; [done|].
  intros Hne. rewrite Hne in Hsize. simpl in Hsize.
  apply orb_false_iff in Hsize as [Hwh Hn]. apply orb_false_iff in Hwh as [Hw Hh].
  apply bool_decide_eq_false in Hw, Hh, Hn.
  split_and!; apply dec_stable; done.
Qed.

Lemma refused_false fb slot texture :
  refused getMaxNumRenderBuffers fb slot texture = false →
  isSwapchain fb = false ∧ slot < getMaxNumRenderBuffers ∧
  ∀ t, texture = Some t →
    Texture.getType t ≠ Texture.TEX_1D ∧
    (isEmpty fb = false →
       Texture.getWidth t = getWidth fb ∧
       Texture.getHeight t = getHeight fb ∧
       Texture.getNumSamples t = getNumSamples fb).
Proof.
  unfold refused. intros Hok.
  apply orb_false_iff in Hok as [Hok Htex]. apply orb_false_iff in Hok as [Hsc Hslot].
  apply bool_decide_eq_false in Hslot. split_and!; [done|lia|].
  intros t ->. by apply compatible_texture.
Qed.

Lemma refused_depthStencil_false fb texture :
  refused_depthStencil fb texture = false →
  isSwapchain fb = false ∧
  ∀ t, texture = Some t →
    Texture.getType t ≠ Texture.TEX_1D ∧
    (isEmpty fb = false →
       Texture.getWidth t = getWidth fb ∧
       Texture.getHeight t = getHeight fb ∧
       Texture.getNumSamples t = getNumSamples fb).
Proof.
  unfold refused_depthStencil. intros Hok.
  apply orb_false_iff in Hok as [Hsc Htex]. split; [done|].
  intros t ->. by apply compatible_texture.
Qed.

Lemma setDepthStencilBuffer_refused fb texture subresource :
  refused_depthStencil fb texture = true →
  setDepthStencilBuffer BUFFER_DEPTHSTENCIL fb texture subresource = (false, fb).
Proof.
  unfold refused_depthStencil, setDepthStencilBuffer, validateTargetCompatibility.
  destruct (isSwapchain fb); [done|]. simpl.
  destruct texture as [t|]; [|done].
  destruct (decide (Texture.getType t = Texture.TEX_1D)); [done|].
  rewrite bool_decide_eq_false_2 by done. simpl.
  destruct (isEmpty fb); [done|]. simpl.
  repeat case_bool_decide; simpl; done.
Qed.

(** What [setDepthStencilBuffer] does when none of the guards fires. *)
Lemma setDepthStencilBuffer_accepted fb texture subresource :
  refused_depthStencil fb texture = false →
  setDepthStencilBuffer BUFFER_DEPTHSTENCIL fb texture subresource =
    (true,
     let cleared :=
       Z.land (_buffersMask fb) (wrap_uint32 (Z.lnot BUFFER_DEPTHSTENCIL)) in
     let sized := updateSize fb texture in
     MkFramebuffer (_swapchain fb) (_frameCount fb)
       (_renderBuffers fb) (_renderBuffersSubresource fb)
       texture subresource
       (if texture is Some _ then Z.lor cleared BUFFER_DEPTHSTENCIL else cleared)
       (_width sized) (_height sized) (_numSamples sized)).
Proof.
  unfold refused_depthStencil, setDepthStencilBuffer, validateTargetCompatibility.
  destruct (isSwapchain fb) eqn:Hsc; [done|]. simpl.
  intros Hok.
  assert (Hguard : (if texture is Some t
                    then negb (if decide (Texture.getType t = Texture.TEX_1D) then false
                               else if isEmpty fb then true
                               else if bool_decide (Texture.getWidth t = getWidth fb)
                                       && bool_decide (Texture.getHeight t = getHeight fb)
                                       && bool_decide (Texture.getNumSamples t = getNumSamples fb)
                                    then true else false)
                    else false) = false).
  { destruct texture as [t|]; [|done].
    destruct (decide (Texture.getType t = Texture.TEX_1D)).
    { by rewrite bool_decide_eq_true_2 in Hok. }
    rewrite bool_decide_eq_false_2 in Hok by done. simpl in Hok.
    destruct (isEmpty fb); [done|]. simpl in Hok.
    repeat case_bool_decide; simpl in *; done. }
  rewrite Hguard. f_equal.
  unfold updateSize, isEmpty; simpl.
  destruct (bool_decide (_buffersMask fb = 0)); simpl;
    destruct texture as [t|]; done.
Qed.

(** The sizes after [updateSize]. *)
Lemma updateSize_sizes fb texture :
  let sized := updateSize fb texture in
  if isEmpty fb
  then if texture is Some t
       then _width sized = Texture.getWidth t ∧ _height sized = Texture.getHeight t ∧
            _numSamples sized = Texture.getNumSamples t
       else _width sized = 0 ∧ _height sized = 0 ∧ _numSamples sized = 0
  else _width sized = _width fb ∧ _height sized = _height fb ∧
       _numSamples sized = _numSamples fb.
Proof.
  unfold updateSize. destruct (isEmpty fb); simpl; [|done].
  destruct texture; done.
Qed.

Lemma wrap_uint32_bits_high (z b : Z) : 32 ≤ b → Z.testbit (wrap_uint32 z) b = false.
Proof. intros Hb. unfold wrap_uint32. apply Z.mod_pow2_bits_high. lia. Qed.

(** The bits of the mask after [setRenderBuffer]. *)
Lemma mask_after_render (bm slot b : Z) texture :
  0 ≤ slot < 32 →
  let mask := wrap_int (Z.shiftl 1 slot) in
  let cleared := Z.land bm (wrap_uint32 (Z.lnot mask)) in
  Z.testbit (if texture is Some _ then Z.lor cleared (wrap_uint32 mask) else cleared) b
  = if decide (0 ≤ b < 32)
    then if decide (b = slot) then bool_decide (is_Some texture) else Z.testbit bm b
    else false.
Proof.
  intros Hslot mask cleared.
  destruct (decide (0 ≤ b < 32)) as [Hb|Hb].
  - pose proof (mask_update bm slot b (bool_decide (is_Some texture)) Hslot Hb) as Hbit.
    cbv zeta in Hbit. destruct texture; exact Hbit.
  - destruct (decide (b < 0)) as [Hneg|Hpos].
    + by apply Z.testbit_neg_r.
    + assert (Hc : Z.testbit cleared b = false).
      { unfold cleared. rewrite Z.land_spec, wrap_uint32_bits_high by lia.
        apply andb_false_r. }
      destruct texture; [|done].
      by rewrite Z.lor_spec, Hc, wrap_uint32_bits_high by lia.
Qed.

(** The bits of the depth-stencil mask are bits of a [uint32]. *)
Lemma depthStencil_bits (b : Z) :
  0 < BUFFER_DEPTHSTENCIL ≤ UINT32_MAX →
  Z.testbit BUFFER_DEPTHSTENCIL b = true → 0 ≤ b < 32.
Proof.
  intros Hds Hb. destruct (decide (b < 0)) as [Hneg|Hpos].
  { by rewrite Z.testbit_neg_r in Hb. }
  destruct (decide (b < 32)); [lia|].
  rewrite <- (Z.mod_small BUFFER_DEPTHSTENCIL (2 ^ 32)) in Hb by (unfold UINT32_MAX in Hds; lia).
  rewrite Z.mod_pow2_bits_high in Hb by lia. done.
Qed.

(** The bits of the mask after [setDepthStencilBuffer]. *)
Lemma mask_after_depthStencil (bm b : Z) texture :
  0 < BUFFER_DEPTHSTENCIL ≤ UINT32_MAX →
  let cleared := Z.land bm (wrap_uint32 (Z.lnot BUFFER_DEPTHSTENCIL)) in
  Z.testbit (if texture is Some _ then Z.lor cleared BUFFER_DEPTHSTENCIL else cleared) b
  = if decide (0 ≤ b < 32)
    then if Z.testbit BUFFER_DEPTHSTENCIL b then bool_decide (is_Some texture)
         else Z.testbit bm b
    else false.
Proof.
  intros Hds cleared.
  destruct (decide (0 ≤ b < 32)) as [Hb|Hb].
  - assert (Hc : Z.testbit cleared b
                 = Z.testbit bm b && negb (Z.testbit BUFFER_DEPTHSTENCIL b)).
    { unfold cleared, wrap_uint32. rewrite Z.land_spec.
      rewrite Z.mod_pow2_bits_low by lia. by rewrite Z.lnot_spec by lia. }
    destruct texture; rewrite ?Z.lor_spec, Hc;
      destruct (Z.testbit BUFFER_DEPTHSTENCIL b); simpl;
      by rewrite ?andb_false_r, ?andb_true_r, ?orb_true_r, ?orb_false_r.
  - destruct (decide (b < 0)) as [Hneg|Hpos].
    + by apply Z.testbit_neg_r.
    + assert (Hc : Z.testbit cleared b = false).
      { unfold cleared. rewrite Z.land_spec, wrap_uint32_bits_high by lia.
        apply andb_false_r. }
      assert (Hd : Z.testbit BUFFER_DEPTHSTENCIL b = false).
      { destruct (Z.testbit BUFFER_DEPTHSTENCIL b) eqn:Hbit; [|done].
        apply depthStencil_bits in Hbit; [lia|done]. }
      destruct texture; [|done].
      by rewrite Z.lor_spec, Hc, Hd.
Qed.

Lemma create_fields :
  create MAX_NUM_RENDER_BUFFERS
  = MkFramebuffer None 0 (replicate MAX_NUM_RENDER_BUFFERS None)
      (replicate MAX_NUM_RENDER_BUFFERS 0) None 0 0 0 0 0.
Proof.
  unfold create, resize, set_renderBuffersSubresource, set_renderBuffers, construct.
  cbv zeta. cbn [_swapchain _frameCount _renderBuffers _renderBuffersSubresource
                 _depthStencilBuffer _depthStencilBufferSubresource _buffersMask
                 _width _height _numSamples length].
  by rewrite !take_nil, Nat.sub_0_r.
Qed.

Lemma replicate_None_lookup (n i : nat) :
  default None (replicate n (None : TexturePointer) !! i) = None.
Proof.
  destruct (replicate n (None : TexturePointer) !! i) as [x|] eqn:Hx; [|done].
  apply lookup_replicate in Hx as [-> _]. done.
Qed.

Lemma bool_decide_is_Some_false {A : Type} (x : option A) :
  bool_decide (is_Some x) = false → x = None.
Proof.
  destruct x; [|done]. rewrite bool_decide_eq_true_2 by eauto. done.
Qed.

Lemma coherent_create :
  limits MAX_NUM_RENDER_BUFFERS getMaxNumRenderBuffers BUFFER_DEPTHSTENCIL →
  coherent getMaxNumRenderBuffers BUFFER_DEPTHSTENCIL (create MAX_NUM_RENDER_BUFFERS).
Proof.
  intros (Hg & Hm & Hds & Hdisj). rewrite create_fields. unfold coherent.
  cbn [_swapchain _renderBuffers _renderBuffersSubresource _buffersMask
       _depthStencilBuffer]. split_and!.
  - done.
  - rewrite length_replicate. lia.
  - rewrite length_replicate. lia.
  - intros i _. rewrite Z.testbit_0_l, replicate_None_lookup.
    symmetry. apply bool_decide_eq_false. by intros [? ?].
  - intros i _. apply replicate_None_lookup.
  - intros b _. rewrite Z.testbit_0_l.
    symmetry. apply bool_decide_eq_false. by intros [? ?].
  - intros b Hb. by rewrite Z.testbit_0_l in Hb.
  - intros i t Hi. apply lookup_replicate in Hi as [? _]. done.
  - done.
Qed.

(** With an empty mask nothing is attached, and the other way. *)
Lemma coherent_isEmpty fb :
  limits MAX_NUM_RENDER_BUFFERS getMaxNumRenderBuffers BUFFER_DEPTHSTENCIL →
  coherent getMaxNumRenderBuffers BUFFER_DEPTHSTENCIL fb →
  isEmpty fb = true ↔
  (∀ i : nat, default None (_renderBuffers fb !! i) = None) ∧ _depthStencilBuffer fb = None.
Proof.
  intros (Hg & Hm & Hds & Hdisj) (H1 & H2 & H3 & H4 & H5 & H6 & H7 & H8 & H9).
  unfold isEmpty. rewrite bool_decide_eq_true. split.
  - intros Hmask. rewrite Hmask in *. split.
    + intros i. destruct (decide (Z.of_nat i < getMaxNumRenderBuffers)) as [Hi|Hi].
      * specialize (H4 i Hi). rewrite Z.testbit_0_l in H4.
        by apply bool_decide_is_Some_false.
      * apply H5. lia.
    + pose proof (Z.bit_log2 BUFFER_DEPTHSTENCIL ltac:(lia)) as Hbit.
      specialize (H6 _ Hbit). rewrite Z.testbit_0_l in H6.
      by apply bool_decide_is_Some_false.
  - intros [Hrb Hdepth]. apply Z.bits_inj'. intros b Hb. rewrite Z.testbit_0_l.
    destruct (Z.testbit (_buffersMask fb) b) eqn:Hbit; [|done].
    destruct (H7 b Hbit) as [Hlow|Hhigh].
    + specialize (H4 (Z.to_nat b)). rewrite Z2Nat.id in H4 by lia.
      rewrite H4, Hrb in Hbit by lia.
      apply bool_decide_eq_true in Hbit as [? ?]. done.
    + rewrite (H6 b Hhigh), Hdepth in Hbit.
      apply bool_decide_eq_true in Hbit as [? ?]. done.
Qed.

Lemma coherent_setRenderBuffer fb slot texture subresource :
  limits MAX_NUM_RENDER_BUFFERS getMaxNumRenderBuffers BUFFER_DEPTHSTENCIL →
  coherent getMaxNumRenderBuffers BUFFER_DEPTHSTENCIL fb →
  0 ≤ slot →
  coherent getMaxNumRenderBuffers BUFFER_DEPTHSTENCIL
    (setRenderBuffer getMaxNumRenderBuffers fb slot texture subresource).2.
Proof.
  intros Hlim Hco Hslot0.
  destruct (refused getMaxNumRenderBuffers fb slot texture) eqn:Href.
  { by rewrite setRenderBuffer_refused. }
  rewrite setRenderBuffer_accepted by done. cbn [snd]. cbv zeta.
  destruct (refused_false _ _ _ Href) as (Hsc & Hlt & Htex).
  pose proof (coherent_isEmpty fb Hlim Hco) as Hempty.
  destruct Hlim as (Hg & Hm & Hds & Hdisj).
  destruct Hco as (H1 & H2 & H3 & H4 & H5 & H6 & H7 & H8 & H9).
  pose proof (updateSize_sizes fb texture) as Hsz. cbv zeta in Hsz.
  assert (Hw : getWidth fb = _width fb) by (unfold getWidth; by rewrite H1).
  assert (Hh : getHeight fb = _height fb) by (unfold getHeight; by rewrite H1).
  assert (Hn : getNumSamples fb = _numSamples fb) by (unfold getNumSamples; by rewrite H1).
  unfold coherent.
  cbn [_swapchain _renderBuffers _renderBuffersSubresource _buffersMask
       _depthStencilBuffer]. split_and!.
  - done.
  - by rewrite length_insert.
  - by rewrite length_insert.
  - intros i Hi. rewrite mask_after_render by lia.
    rewrite decide_True by lia.
    destruct (decide (Z.of_nat i = slot)) as [<-|Hne].
    + rewrite Nat2Z.id, list_lookup_insert_eq by lia. done.
    + rewrite list_lookup_insert_ne by lia. by apply H4.
  - intros i Hi. rewrite list_lookup_insert_ne by lia. by apply H5.
  - intros b Hb. rewrite mask_after_render by lia.
    pose proof (depthStencil_bits b Hds Hb) as Hrange.
    rewrite decide_True by lia.
    destruct (decide (b = slot)) as [->|Hne]; [|by apply H6].
    rewrite Hdisj in Hb by lia. done.
  - intros b. rewrite mask_after_render by lia.
    destruct (decide (0 ≤ b < 32)) as [Hb|Hb]; [|done].
    destruct (decide (b = slot)) as [->|Hne]; [intros _; left; lia|apply H7].
  - intros i t Hi. unfold fits. cbn [_width _height _numSamples].
    destruct (decide (i = Z.to_nat slot)) as [->|Hne].
    + rewrite list_lookup_insert_eq in Hi by lia. injection Hi as ->.
      destruct (Htex t eq_refl) as [H1d Hsize]. split; [done|].
      destruct (isEmpty fb).
      * destruct Hsz as (-> & -> & ->). done.
      * destruct Hsz as (-> & -> & ->). rewrite <- Hw, <- Hh, <- Hn. by apply Hsize.
    + rewrite list_lookup_insert_ne in Hi by done.
      destruct (isEmpty fb).
      * destruct Hempty as [Hnone _]. destruct (Hnone eq_refl) as [Hrb _].
        specialize (Hrb i). rewrite Hi in Hrb. done.
      * destruct Hsz as (-> & -> & ->). by apply (H8 i).
  - intros t Ht. unfold fits. cbn [_width _height _numSamples].
    destruct (isEmpty fb).
    + destruct Hempty as [Hnone _]. destruct (Hnone eq_refl) as [_ Hd]. congruence.
    + destruct Hsz as (-> & -> & ->). by apply H9.
Qed.

Lemma coherent_setDepthStencilBuffer fb texture subresource :
  limits MAX_NUM_RENDER_BUFFERS getMaxNumRenderBuffers BUFFER_DEPTHSTENCIL →
  coherent getMaxNumRenderBuffers BUFFER_DEPTHSTENCIL fb →
  coherent getMaxNumRenderBuffers BUFFER_DEPTHSTENCIL
    (setDepthStencilBuffer BUFFER_DEPTHSTENCIL fb texture subresource).2.
Proof.
  intros Hlim Hco.
  destruct (refused_depthStencil fb texture) eqn:Href.
  { by rewrite setDepthStencilBuffer_refused. }
  rewrite setDepthStencilBuffer_accepted by done. cbn [snd]. cbv zeta.
  destruct (refused_depthStencil_false _ _ Href) as (Hsc & Htex).
  pose proof (coherent_isEmpty fb Hlim Hco) as Hempty.
  destruct Hlim as (Hg & Hm & Hds & Hdisj).
  destruct Hco as (H1 & H2 & H3 & H4 & H5 & H6 & H7 & H8 & H9).
  pose proof (updateSize_sizes fb texture) as Hsz. cbv zeta in Hsz.
  assert (Hw : getWidth fb = _width fb) by (unfold getWidth; by rewrite H1).
  assert (Hh : getHeight fb = _height fb) by (unfold getHeight; by rewrite H1).
  assert (Hn : getNumSamples fb = _numSamples fb) by (unfold getNumSamples; by rewrite H1).
  unfold coherent.
  cbn [_swapchain _renderBuffers _renderBuffersSubresource _buffersMask
       _depthStencilBuffer]. split_and!.
  - done.
  - done.
  - done.
  - intros i Hi. rewrite mask_after_depthStencil by done.
    rewrite decide_True by lia. rewrite Hdisj by lia. by apply H4.
  - done.
  - intros b Hb. rewrite mask_after_depthStencil by done.
    pose proof (depthStencil_bits b Hds Hb) as Hrange.
    rewrite decide_True by lia. by rewrite Hb.
  - intros b. rewrite mask_after_depthStencil by done.
    destruct (decide (0 ≤ b < 32)) as [Hb|Hb]; [|done].
    destruct (Z.testbit BUFFER_DEPTHSTENCIL b) eqn:Hbit; [by right|].
    intros Hmask. destruct (H7 b Hmask) as [?|?]; [by left|congruence].
  - intros i t Hi. unfold fits. cbn [_width _height _numSamples].
    destruct (isEmpty fb).
    + destruct Hempty as [Hnone _]. destruct (Hnone eq_refl) as [Hrb _].
      specialize (Hrb i). rewrite Hi in Hrb. done.
    + destruct Hsz as (-> & -> & ->). by apply (H8 i).
  - intros t Ht. subst texture. unfold fits. cbn [_width _height _numSamples].
    destruct (Htex t eq_refl) as [H1d Hsize]. split; [done|].
    destruct (isEmpty fb).
    + destruct Hsz as (-> & -> & ->). done.
    + destruct Hsz as (-> & -> & ->). rewrite <- Hw, <- Hh, <- Hn. by apply Hsize.
Qed.

(** Every framebuffer a caller can put together is coherent. *)
Lemma assembled_coherent fb :
  limits MAX_NUM_RENDER_BUFFERS getMaxNumRenderBuffers BUFFER_DEPTHSTENCIL →
  assembled MAX_NUM_RENDER_BUFFERS getMaxNumRenderBuffers BUFFER_DEPTHSTENCIL fb →
  coherent getMaxNumRenderBuffers BUFFER_DEPTHSTENCIL fb.
Proof.
  intros Hlim. induction 1.
  - by apply coherent_create.
  - by apply coherent_setRenderBuffer.
  - by apply coherent_setDepthStencilBuffer.
Qed.

(** The loop of [removeRenderBuffers] changes nothing. *)
Lemma reset_copies (v : list TexturePointer) : ∀ fb,
  fold_left (λ fb (renderBuffer : TexturePointer),
               let renderBuffer : TexturePointer := None in fb) v fb = fb.
Proof. induction v as [|x v IH]; intros fb; [done|]. simpl. apply IH. Qed.

(** X8. [setDepthStencilBuffer] is all or nothing.  When the framebuffer
    is a swapchain, or the texture is not null and fails the compatibility
    check, it returns false and the framebuffer is what it was.  Otherwise
    it returns true, the getters give back the texture and the subresource,
    the render buffers are what they were, and the bits of
    [BUFFER_DEPTHSTENCIL] in the mask are set when the texture is not null
    and cleared when it is null, the other bits being left alone. *)
Theorem setDepthStencilBuffer_all_or_nothing fb texture subresource :
  let result := setDepthStencilBuffer BUFFER_DEPTHSTENCIL fb texture subresource in
  if refused_depthStencil fb texture
  then result = (false, fb)
  else
    result.1 = true ∧
    getDepthStencilBuffer result.2 = texture ∧
    getDepthStencilBufferSubresource result.2 = subresource ∧
    _renderBuffers result.2 = _renderBuffers fb ∧
    _renderBuffersSubresource result.2 = _renderBuffersSubresource fb ∧
    (0 < BUFFER_DEPTHSTENCIL ≤ UINT32_MAX →
     ∀ b, 0 ≤ b < 32 →
       Z.testbit (_buffersMask result.2) b
       = if Z.testbit BUFFER_DEPTHSTENCIL b then bool_decide (is_Some texture)
         else Z.testbit (_buffersMask fb) b).
Proof.
  intros result. unfold result.
  destruct (refused_depthStencil fb texture) eqn:Href.
  { by apply setDepthStencilBuffer_refused. }
  destruct (refused_depthStencil_false _ _ Href) as (Hsc & _).
  rewrite setDepthStencilBuffer_accepted by done. cbn [fst snd]. cbv zeta.
  unfold getDepthStencilBuffer, getDepthStencilBufferSubresource.
  assert (Hsc' : ∀ a b c d e f g h i,
             isSwapchain (MkFramebuffer (_swapchain fb) a b c d e f g h i) = false).
  { intros. apply isSwapchain_false. simpl. by apply isSwapchain_false. }
  rewrite !Hsc'. cbn [_depthStencilBuffer _depthStencilBufferSubresource _renderBuffers
                      _renderBuffersSubresource _buffersMask].
  split_and!; try done.
  intros Hds b Hb. rewrite mask_after_depthStencil by done. by rewrite decide_True.
Qed.

(** X9. What [setRenderBuffer] stores, the getters give back: after an
    accepted call the slot returns the texture and the subresource of the
    call, every other slot returns what it returned before, and so does the
    depth-stencil buffer. *)
Theorem getRenderBuffer_after_setRenderBuffer fb slot texture subresource :
  refused getMaxNumRenderBuffers fb slot texture = false →
  0 ≤ slot →
  getMaxNumRenderBuffers ≤ Z.of_nat (length (_renderBuffers fb)) →
  getMaxNumRenderBuffers ≤ Z.of_nat (length (_renderBuffersSubresource fb)) →
  let after := (setRenderBuffer getMaxNumRenderBuffers fb slot texture subresource).2 in
  getRenderBuffer getMaxNumRenderBuffers after slot = texture ∧
  getRenderBufferSubresource getMaxNumRenderBuffers after slot = subresource ∧
  (∀ other, 0 ≤ other → other ≠ slot →
     getRenderBuffer getMaxNumRenderBuffers after other
     = getRenderBuffer getMaxNumRenderBuffers fb other ∧
     getRenderBufferSubresource getMaxNumRenderBuffers after other
     = getRenderBufferSubresource getMaxNumRenderBuffers fb other) ∧
  getDepthStencilBuffer after = getDepthStencilBuffer fb ∧
  getDepthStencilBufferSubresource after = getDepthStencilBufferSubresource fb.
Proof.
  intros Href Hslot0 Hrb Hrbs after. unfold after.
  destruct (refused_false _ _ _ Href) as (Hsc & Hlt & _).
  rewrite setRenderBuffer_accepted by done. cbn [snd]. cbv zeta.
  unfold getRenderBuffer, getRenderBufferSubresource, getDepthStencilBuffer,
    getDepthStencilBufferSubresource.
  assert (Hsc' : ∀ a b c d e f g h i,
             isSwapchain (MkFramebuffer (_swapchain fb) a b c d e f g h i) = false).
  { intros. apply isSwapchain_false. simpl. by apply isSwapchain_false. }
  rewrite !Hsc', Hsc. cbn [negb andb _renderBuffers _renderBuffersSubresource
                           _depthStencilBuffer _depthStencilBufferSubresource].
  split_and!; try done.
  - rewrite bool_decide_eq_true_2 by done. by rewrite list_lookup_insert_eq by lia.
  - rewrite bool_decide_eq_true_2 by done. by rewrite list_lookup_insert_eq by lia.
  - intros other Hother Hne.
    case_bool_decide; [|done].
    by rewrite !list_lookup_insert_ne by lia.
Qed.

(** X10. [removeRenderBuffers] does not take the textures out of the
    slots: its loop resets copies of the pointers.  After the call every
    slot returns what it returned before, [getNumRenderBuffers] has not
    moved and the depth-stencil buffer is the same.  On a framebuffer that is
    not a swapchain only the bits of the mask outside [BUFFER_DEPTHSTENCIL]
    are cleared, and the size is set to zero when no bit is left; a
    swapchain framebuffer is not changed. *)
Theorem removeRenderBuffers_keeps_the_pointers fb :
  let after := removeRenderBuffers BUFFER_DEPTHSTENCIL fb in
  _renderBuffers after = _renderBuffers fb ∧
  (∀ slot, getRenderBuffer getMaxNumRenderBuffers after slot
           = getRenderBuffer getMaxNumRenderBuffers fb slot) ∧
  getNumRenderBuffers after = getNumRenderBuffers fb ∧
  getDepthStencilBuffer after = getDepthStencilBuffer fb ∧
  if isSwapchain fb then after = fb
  else
    _buffersMask after = Z.land (_buffersMask fb) BUFFER_DEPTHSTENCIL ∧
    if decide (Z.land (_buffersMask fb) BUFFER_DEPTHSTENCIL = 0)
    then _width after = 0 ∧ _height after = 0 ∧ _numSamples after = 0
    else _width after = _width fb ∧ _height after = _height fb ∧
         _numSamples after = _numSamples fb.
Proof.
  intros after. unfold after, removeRenderBuffers.
  destruct (isSwapchain fb) eqn:Hsc; [done|].
  cbv zeta. rewrite reset_copies.
  unfold updateSize, isEmpty. cbn [_buffersMask set_buffersMask].
  unfold getRenderBuffer, getNumRenderBuffers, getDepthStencilBuffer.
  destruct (decide (Z.land (_buffersMask fb) BUFFER_DEPTHSTENCIL = 0)) as [Hz|Hnz].
  - rewrite bool_decide_eq_true_2 by done. cbn [negb].
    assert (Hsc' : isSwapchain (set_size (set_buffersMask fb
                     (Z.land (_buffersMask fb) BUFFER_DEPTHSTENCIL)) 0 0 0) = false).
    { apply isSwapchain_false. simpl. by apply isSwapchain_false. }
    rewrite Hsc', Hsc. done.
  - rewrite bool_decide_eq_false_2 by done. cbn [negb].
    assert (Hsc' : isSwapchain (set_buffersMask fb
                     (Z.land (_buffersMask fb) BUFFER_DEPTHSTENCIL)) = false).
    { apply isSwapchain_false. simpl. by apply isSwapchain_false. }
    rewrite Hsc', Hsc. done.
Qed.

(** X11. In a framebuffer put together with [create()] and the two
    setters, the mask tells what is attached: bit [slot] is set exactly when
    [getRenderBuffer slot] is not null, the bits of [BUFFER_DEPTHSTENCIL]
    exactly when [getDepthStencilBuffer] is not null, and [isEmpty] holds
    exactly when every slot and the depth-stencil buffer are null. *)
Theorem mask_tells_what_is_attached fb :
  limits MAX_NUM_RENDER_BUFFERS getMaxNumRenderBuffers BUFFER_DEPTHSTENCIL →
  assembled MAX_NUM_RENDER_BUFFERS getMaxNumRenderBuffers BUFFER_DEPTHSTENCIL fb →
  (∀ slot, 0 ≤ slot < getMaxNumRenderBuffers →
     Z.testbit (_buffersMask fb) slot
     = bool_decide (is_Some (getRenderBuffer getMaxNumRenderBuffers fb slot))) ∧
  (∀ b, Z.testbit BUFFER_DEPTHSTENCIL b = true →
     Z.testbit (_buffersMask fb) b = bool_decide (is_Some (getDepthStencilBuffer fb))) ∧
  (isEmpty fb = true ↔
     (∀ slot, 0 ≤ slot → getRenderBuffer getMaxNumRenderBuffers fb slot = None) ∧
     getDepthStencilBuffer fb = None).
Proof.
  intros Hlim Hasm. pose proof (assembled_coherent fb Hlim Hasm) as Hco.
  pose proof (coherent_isEmpty fb Hlim Hco) as Hempty.
  destruct Hco as (H1 & H2 & H3 & H4 & H5 & H6 & H7 & H8 & H9).
  assert (Hsc : isSwapchain fb = false) by by apply isSwapchain_false.
  unfold getRenderBuffer, getDepthStencilBuffer. rewrite Hsc. cbn [negb andb].
  split_and!.
  - intros slot Hslot.
    rewrite (bool_decide_eq_true_2 (slot < getMaxNumRenderBuffers)) by lia.
    specialize (H4 (Z.to_nat slot)). rewrite Z2Nat.id in H4 by lia. apply H4. lia.
  - done.
  - rewrite Hempty. split; intros [Hrb Hd]; (split; [|done]).
    + intros slot _.
      destruct (bool_decide (slot < getMaxNumRenderBuffers)); [apply Hrb|done].
    + intros i. destruct (decide (Z.of_nat i < getMaxNumRenderBuffers)) as [Hi|Hi].
      * specialize (Hrb (Z.of_nat i) ltac:(lia)).
        rewrite bool_decide_eq_true_2 in Hrb by done. by rewrite Nat2Z.id in Hrb.
      * apply H5. lia.
Qed.

(** X12. In a framebuffer put together with [create()] and the two
    setters, every attached texture, in a slot or as the depth-stencil
    buffer, is not a 1D texture and has the width, the height and the number
    of samples the framebuffer reports. *)
Theorem attached_textures_share_the_size fb :
  limits MAX_NUM_RENDER_BUFFERS getMaxNumRenderBuffers BUFFER_DEPTHSTENCIL →
  assembled MAX_NUM_RENDER_BUFFERS getMaxNumRenderBuffers BUFFER_DEPTHSTENCIL fb →
  ∀ t,
    (∃ slot, getRenderBuffer getMaxNumRenderBuffers fb slot = Some t)
    ∨ getDepthStencilBuffer fb = Some t →
    Texture.getType t ≠ Texture.TEX_1D ∧
    Texture.getWidth t = getWidth fb ∧
    Texture.getHeight t = getHeight fb ∧
    Texture.getNumSamples t = getNumSamples fb.
Proof.
  intros Hlim Hasm t Ht. pose proof (assembled_coherent fb Hlim Hasm) as Hco.
  destruct Hco as (H1 & H2 & H3 & H4 & H5 & H6 & H7 & H8 & H9).
  assert (Hsc : isSwapchain fb = false) by by apply isSwapchain_false.
  unfold getWidth, getHeight, getNumSamples. rewrite H1.
  unfold getRenderBuffer, getDepthStencilBuffer in Ht. rewrite Hsc in Ht.
  cbn [negb andb] in Ht. destruct Ht as [[slot Hslot]|Hd].
  - destruct (bool_decide (slot < getMaxNumRenderBuffers)); [|done].
    destruct (_renderBuffers fb !! Z.to_nat slot) as [x|] eqn:Hx; [|done].
    simpl in Hslot. subst x. by apply (H8 _ _ Hx).
  - by apply H9.
Qed.

(** X13. After [removeRenderBuffers] on a framebuffer put together with
    [create()] and the two setters that has no depth-stencil buffer, the
    framebuffer reports itself empty and of size zero, while every slot
    still returns the texture it held. *)
Theorem removeRenderBuffers_empties_the_mask_only fb :
  limits MAX_NUM_RENDER_BUFFERS getMaxNumRenderBuffers BUFFER_DEPTHSTENCIL →
  assembled MAX_NUM_RENDER_BUFFERS getMaxNumRenderBuffers BUFFER_DEPTHSTENCIL fb →
  getDepthStencilBuffer fb = None →
  let after := removeRenderBuffers BUFFER_DEPTHSTENCIL fb in
  isEmpty after = true ∧
  getWidth after = 0 ∧ getHeight after = 0 ∧ getNumSamples after = 0 ∧
  ∀ slot, getRenderBuffer getMaxNumRenderBuffers after slot
          = getRenderBuffer getMaxNumRenderBuffers fb slot.
Proof.
  intros Hlim Hasm Hnone after. pose proof (assembled_coherent fb Hlim Hasm) as Hco.
  destruct Hlim as (Hg & Hm & Hds & Hdisj).
  destruct Hco as (H1 & H2 & H3 & H4 & H5 & H6 & H7 & H8 & H9).
  assert (Hsc : isSwapchain fb = false) by by apply isSwapchain_false.
  unfold getDepthStencilBuffer in Hnone. rewrite Hsc in Hnone.
  assert (Hz : Z.land (_buffersMask fb) BUFFER_DEPTHSTENCIL = 0).
  { apply Z.bits_inj'. intros b Hb. rewrite Z.land_spec, Z.testbit_0_l.
    destruct (Z.testbit BUFFER_DEPTHSTENCIL b) eqn:Hbit; [|apply andb_false_r].
    rewrite (H6 b Hbit), Hnone, andb_true_r. apply bool_decide_eq_false. by intros [? ?]. }
  unfold after, removeRenderBuffers. rewrite Hsc. cbv zeta. rewrite reset_copies.
  unfold updateSize, isEmpty. cbn [_buffersMask set_buffersMask].
  rewrite !(bool_decide_eq_true_2 _ Hz). cbn [negb].
  unfold getWidth, getHeight, getNumSamples, getRenderBuffer, isSwapchain.
  cbn [set_size set_buffersMask _swapchain _buffersMask _width _height _numSamples
       _renderBuffers]. rewrite H1.
  split_and!; done.
Qed.

(** X14. Nothing changes a swapchain framebuffer: both setters refuse,
    [removeRenderBuffers] returns at once, the getters of the buffers return
    null pointers and zero, and the size and the frame count are those of
    the swapchain. *)
Theorem swapchain_is_left_alone fb (sc : Swapchain.Swapchain) slot texture subresource :
  _swapchain fb = Some sc →
  setRenderBuffer getMaxNumRenderBuffers fb slot texture subresource = (-1, fb) ∧
  setDepthStencilBuffer BUFFER_DEPTHSTENCIL fb texture subresource = (false, fb) ∧
  removeRenderBuffers BUFFER_DEPTHSTENCIL fb = fb ∧
  getRenderBuffer getMaxNumRenderBuffers fb slot = None ∧
  getRenderBufferSubresource getMaxNumRenderBuffers fb slot = 0 ∧
  getDepthStencilBuffer fb = None ∧
  getDepthStencilBufferSubresource fb = 0 ∧
  getWidth fb = Swapchain.getWidth sc ∧
  getHeight fb = Swapchain.getHeight sc ∧
  getNumSamples fb = Swapchain.getNumSamples sc ∧
  getFrameCount fb = Swapchain.getFrameCount sc.
Proof.
  intros Hsc.
  assert (Hsw : isSwapchain fb = true).
  { unfold isSwapchain. apply bool_decide_eq_true. by rewrite Hsc. }
  unfold setRenderBuffer, setDepthStencilBuffer, removeRenderBuffers, getRenderBuffer,
    getRenderBufferSubresource, getDepthStencilBuffer, getDepthStencilBufferSubresource,
    getWidth, getHeight, getNumSamples, getFrameCount.
  rewrite Hsw, Hsc. done.
Qed.

(** X15. The first texture gives the framebuffer its size: an empty
    framebuffer that is not a swapchain accepts any texture that is not 1D,
    in any slot below [getMaxNumRenderBuffers()] or as the depth-stencil
    buffer, whatever size it kept from before, and reports the width, the
    height and the number of samples of that texture afterwards. *)
Theorem first_texture_gives_the_size fb slot t subresource :
  isSwapchain fb = false →
  isEmpty fb = true →
  Texture.getType t ≠ Texture.TEX_1D →
  0 ≤ slot < getMaxNumRenderBuffers →
  slot ≤ INT_MAX →
  let colour := setRenderBuffer getMaxNumRenderBuffers fb slot (Some t) subresource in
  let depth := setDepthStencilBuffer BUFFER_DEPTHSTENCIL fb (Some t) subresource in
  colour.1 = slot ∧
  getWidth colour.2 = Texture.getWidth t ∧
  getHeight colour.2 = Texture.getHeight t ∧
  getNumSamples colour.2 = Texture.getNumSamples t ∧
  depth.1 = true ∧
  getWidth depth.2 = Texture.getWidth t ∧
  getHeight depth.2 = Texture.getHeight t ∧
  getNumSamples depth.2 = Texture.getNumSamples t.
Proof.
  intros Hsc Hempty H1d Hslot Hint colour depth.
  assert (Hnone : _swapchain fb = None) by by apply isSwapchain_false.
  assert (Href : refused getMaxNumRenderBuffers fb slot (Some t) = false).
  { unfold refused. rewrite Hsc, Hempty.
    rewrite !bool_decide_eq_false_2 by (done || lia). done. }
  assert (Hrefd : refused_depthStencil fb (Some t) = false).
  { unfold refused_depthStencil. rewrite Hsc, Hempty.
    rewrite !bool_decide_eq_false_2 by (done || lia). done. }
  pose proof (updateSize_sizes fb (Some t)) as Hsz. cbv zeta in Hsz.
  rewrite Hempty in Hsz. destruct Hsz as (Hw & Hh & Hn).
  unfold colour, depth.
  rewrite setRenderBuffer_accepted, setDepthStencilBuffer_accepted by done.
  cbn [fst snd]. cbv zeta. unfold getWidth, getHeight, getNumSamples.
  cbn [_swapchain _width _height _numSamples]. rewrite Hnone.
  split_and!; try done. apply wrap_int_id. unfold INT_MAX in *. lia.
Qed.

(** X16. [create] with a colour and a depth-stencil texture, neither 1D
    and both of one size, returns a framebuffer that holds the colour
    texture in slot 0 and the other as its depth-stencil buffer, has their
    size, and has all other slots empty. *)
Theorem create_textured_attaches_both (colorTexture depthTexture : Texture.Texture) :
  limits MAX_NUM_RENDER_BUFFERS getMaxNumRenderBuffers BUFFER_DEPTHSTENCIL →
  0 < getMaxNumRenderBuffers →
  Texture.getType colorTexture ≠ Texture.TEX_1D →
  Texture.getType depthTexture ≠ Texture.TEX_1D →
  Texture.getWidth depthTexture = Texture.getWidth colorTexture →
  Texture.getHeight depthTexture = Texture.getHeight colorTexture →
  Texture.getNumSamples depthTexture = Texture.getNumSamples colorTexture →
  let framebuffer :=
    create_textured MAX_NUM_RENDER_BUFFERS getMaxNumRenderBuffers BUFFER_DEPTHSTENCIL
      (Some colorTexture) (Some depthTexture) in
  getRenderBuffer getMaxNumRenderBuffers framebuffer 0 = Some colorTexture ∧
  getDepthStencilBuffer framebuffer = Some depthTexture ∧
  getWidth framebuffer = Texture.getWidth colorTexture ∧
  getHeight framebuffer = Texture.getHeight colorTexture ∧
  getNumSamples framebuffer = Texture.getNumSamples colorTexture ∧
  isEmpty framebuffer = false ∧
  ∀ slot, 0 < slot → getRenderBuffer getMaxNumRenderBuffers framebuffer slot = None.
Proof.
  intros Hlim Hpos Hc1d Hd1d Hw Hh Hn framebuffer.
  destruct Hlim as (Hg & Hm & Hds & Hdisj).
  set (coloured :=
         MkFramebuffer None 0
           (<[0%nat := Some colorTexture]> (replicate MAX_NUM_RENDER_BUFFERS None))
           (<[0%nat := 0]> (replicate MAX_NUM_RENDER_BUFFERS 0)) None 0 1
           (Texture.getWidth colorTexture) (Texture.getHeight colorTexture)
           (Texture.getNumSamples colorTexture)).
  assert (Hcol : (setRenderBuffer getMaxNumRenderBuffers (create MAX_NUM_RENDER_BUFFERS) 0
                    (Some colorTexture) 0).2 = coloured).
  { rewrite create_fields, setRenderBuffer_accepted.
    - done.
    - unfold refused, isSwapchain, isEmpty. cbn [_swapchain _buffersMask].
      rewrite (bool_decide_eq_false_2 (None ≠ None)) by (intros Hne; by apply Hne).
      rewrite (bool_decide_eq_false_2 (getMaxNumRenderBuffers ≤ 0)) by lia.
      rewrite (bool_decide_eq_false_2 (Texture.getType colorTexture = Texture.TEX_1D))
        by done.
      by rewrite (bool_decide_eq_true_2 (0 = 0)). }
  assert (Hdep : (setDepthStencilBuffer BUFFER_DEPTHSTENCIL coloured (Some depthTexture) 0).2
                 = MkFramebuffer None 0 (_renderBuffers coloured)
                     (_renderBuffersSubresource coloured) (Some depthTexture) 0
                     (Z.lor (Z.land 1 (wrap_uint32 (Z.lnot BUFFER_DEPTHSTENCIL)))
                        BUFFER_DEPTHSTENCIL)
                     (Texture.getWidth colorTexture) (Texture.getHeight colorTexture)
                     (Texture.getNumSamples colorTexture)).
  { rewrite setDepthStencilBuffer_accepted.
    - done.
    - unfold refused_depthStencil, isSwapchain, isEmpty, getWidth, getHeight,
        getNumSamples, coloured.
      cbn [_swapchain _buffersMask _width _height _numSamples].
      rewrite (bool_decide_eq_false_2 (None ≠ None)) by (intros Hne; by apply Hne).
      rewrite (bool_decide_eq_false_2 (Texture.getType depthTexture = Texture.TEX_1D))
        by done.
      rewrite Hw, Hh, Hn.
      rewrite !(bool_decide_eq_false_2 (_ ≠ _)) by (intros Hne; by apply Hne).
      done. }
  unfold framebuffer, create_textured. cbv zeta. rewrite Hcol, Hdep.
  unfold getRenderBuffer, getDepthStencilBuffer, getWidth, getHeight, getNumSamples,
    isSwapchain, isEmpty, coloured.
  cbn [_buffersMask _swapchain _renderBuffers _depthStencilBuffer _width _height
       _numSamples].
  rewrite !(bool_decide_eq_false_2 (None ≠ None)) by (intros Hne; by apply Hne).
  cbn [negb andb].
  split_and!; try done.
  - rewrite bool_decide_eq_true_2 by done.
    rewrite list_lookup_insert_eq by (rewrite length_replicate; lia). done.
  - apply bool_decide_eq_false_2. intros Hz.
    assert (Hb : Z.testbit (Z.lor (Z.land 1 (wrap_uint32 (Z.lnot BUFFER_DEPTHSTENCIL)))
                              BUFFER_DEPTHSTENCIL) (Z.log2 BUFFER_DEPTHSTENCIL) = true).
    { rewrite Z.lor_spec, Z.bit_log2 by lia. apply orb_true_r. }
    by rewrite Hz, Z.testbit_0_l in Hb.
  - intros slot Hslot.
    destruct (bool_decide (slot < getMaxNumRenderBuffers)); [|done].
    rewrite list_lookup_insert_ne by lia. apply replicate_None_lookup.
Qed.

(** X17. Attaching the same texture to the same slot a second time is
    accepted and changes nothing: no guard refuses the second call, it
    returns the slot as the first call did, and it leaves the framebuffer as
    the first call left it, the texture in the slot and its bit set. *)
Theorem setRenderBuffer_again fb slot t subresource :
  refused getMaxNumRenderBuffers fb slot (Some t) = false →
  0 ≤ slot →
  getMaxNumRenderBuffers ≤ 32 →
  let once := setRenderBuffer getMaxNumRenderBuffers fb slot (Some t) subresource in
  let again := setRenderBuffer getMaxNumRenderBuffers once.2 slot (Some t) subresource in
  refused getMaxNumRenderBuffers once.2 slot (Some t) = false ∧
  once.1 = slot ∧
  again.1 = slot ∧
  again.2 = once.2 ∧
  Z.testbit (_buffersMask again.2) slot = true ∧
  (getMaxNumRenderBuffers ≤ Z.of_nat (length (_renderBuffers fb)) →
   getRenderBuffer getMaxNumRenderBuffers again.2 slot = Some t).
Proof.
  intros Href Hslot0 Hmax once again. unfold again, once.
  destruct (refused_false _ _ _ Href) as (Hsc & Hlt & Htex).
  destruct (Htex t eq_refl) as [H1d Hsize].
  assert (Hnone : _swapchain fb = None) by by apply isSwapchain_false.
  assert (Hret : wrap_int slot = slot) by (apply wrap_int_id; unfold INT_MAX; lia).
  pose proof (updateSize_sizes fb (Some t)) as Hsz. cbv zeta in Hsz.
  assert (Hsized : _width (updateSize fb (Some t)) = Texture.getWidth t ∧
                   _height (updateSize fb (Some t)) = Texture.getHeight t ∧
                   _numSamples (updateSize fb (Some t)) = Texture.getNumSamples t).
  { destruct (isEmpty fb); [done|].
    destruct Hsz as (-> & -> & ->). destruct (Hsize eq_refl) as (-> & -> & ->).
    unfold getWidth, getHeight, getNumSamples. by rewrite Hnone. }
  destruct Hsized as (Hw & Hh & Hn).
  rewrite (setRenderBuffer_accepted _ fb) by done. cbn [fst snd]. cbv zeta.
  rewrite Hw, Hh, Hn, Hret.
  set (mask := wrap_int (Z.shiftl 1 slot)).
  set (once_mask := Z.lor (Z.land (_buffersMask fb) (wrap_uint32 (Z.lnot mask)))
                      (wrap_uint32 mask)).
  set (attached := MkFramebuffer (_swapchain fb) (_frameCount fb)
                     (<[Z.to_nat slot := Some t]> (_renderBuffers fb))
                     (<[Z.to_nat slot := subresource]> (_renderBuffersSubresource fb))
                     (_depthStencilBuffer fb) (_depthStencilBufferSubresource fb)
                     once_mask (Texture.getWidth t) (Texture.getHeight t)
                     (Texture.getNumSamples t)).
  assert (Hbits : ∀ b, Z.testbit once_mask b
                       = if decide (0 ≤ b < 32)
                         then if decide (b = slot) then true
                              else Z.testbit (_buffersMask fb) b
                         else false).
  { intros b. pose proof (mask_after_render (_buffersMask fb) slot b (Some t)
                            ltac:(lia)) as Hb.
    cbv zeta in Hb. fold mask in Hb. fold once_mask in Hb. rewrite Hb.
    destruct (decide (0 ≤ b < 32)); [|done].
    destruct (decide (b = slot)); [|done]. apply bool_decide_eq_true. eauto. }
  assert (Hset : Z.testbit once_mask slot = true).
  { rewrite Hbits. by rewrite decide_True, decide_True by (done || lia). }
  assert (Hfull : once_mask ≠ 0).
  { intros Hz. by rewrite Hz, Z.testbit_0_l in Hset. }
  assert (Href2 : refused getMaxNumRenderBuffers attached slot (Some t) = false).
  { unfold refused, isSwapchain, isEmpty, getWidth, getHeight, getNumSamples, attached.
    cbn [_swapchain _buffersMask _width _height _numSamples]. rewrite Hnone.
    rewrite (bool_decide_eq_false_2 (None ≠ None)) by (intros Hne; by apply Hne).
    rewrite (bool_decide_eq_false_2 (getMaxNumRenderBuffers ≤ slot)) by lia.
    rewrite (bool_decide_eq_false_2 (Texture.getType t = Texture.TEX_1D)) by done.
    rewrite !(bool_decide_eq_false_2 (_ ≠ _)) by (intros Hne; by apply Hne).
    cbn [orb]. apply andb_false_r. }
  assert (Hagain : setRenderBuffer getMaxNumRenderBuffers attached slot (Some t) subresource
                   = (slot, attached)).
  { rewrite setRenderBuffer_accepted by done. cbv zeta. rewrite Hret. f_equal.
    unfold updateSize, isEmpty, attached.
    cbn [_swapchain _frameCount _renderBuffers _renderBuffersSubresource
         _depthStencilBuffer _depthStencilBufferSubresource _buffersMask].
    fold mask.
    rewrite (bool_decide_eq_false_2 _ Hfull). cbn [negb _width _height _numSamples].
    rewrite !list_insert_insert_eq. f_equal.
    apply Z.bits_inj'. intros b _.
    pose proof (mask_after_render once_mask slot b (Some t) ltac:(lia)) as Hb.
    cbv zeta in Hb. fold mask in Hb. rewrite Hb, !Hbits.
    destruct (decide (0 ≤ b < 32)); [|done].
    destruct (decide (b = slot)); [|done]. apply bool_decide_eq_true. eauto. }
  rewrite Hagain. cbn [fst snd]. split_and!; try done.
  intros Hlen. unfold getRenderBuffer, isSwapchain, attached.
  cbn [_swapchain _renderBuffers]. rewrite Hnone.
  rewrite (bool_decide_eq_false_2 (None ≠ None)) by (intros Hne; by apply Hne).
  rewrite (bool_decide_eq_true_2 (slot < getMaxNumRenderBuffers)) by done.
  cbn [negb andb]. by rewrite list_lookup_insert_eq by lia.
Qed.

(** X18. The size outlives the last texture.  In a framebuffer put together
    with [create()] and the two setters whose only texture sits in [slot],
    setting the slot to null leaves the framebuffer empty but reporting the
    size it had; setting it to null once more brings the size to zero. *)
Theorem size_outlives_the_last_texture fb slot t :
  limits MAX_NUM_RENDER_BUFFERS getMaxNumRenderBuffers BUFFER_DEPTHSTENCIL →
  assembled MAX_NUM_RENDER_BUFFERS getMaxNumRenderBuffers BUFFER_DEPTHSTENCIL fb →
  0 ≤ slot < getMaxNumRenderBuffers →
  getRenderBuffer getMaxNumRenderBuffers fb slot = Some t →
  (∀ other, 0 ≤ other → other ≠ slot →
     getRenderBuffer getMaxNumRenderBuffers fb other = None) →
  getDepthStencilBuffer fb = None →
  let once := (setRenderBuffer getMaxNumRenderBuffers fb slot None 0).2 in
  let twice := (setRenderBuffer getMaxNumRenderBuffers once slot None 0).2 in
  isEmpty once = true ∧
  getWidth once = getWidth fb ∧ getHeight once = getHeight fb ∧
  getNumSamples once = getNumSamples fb ∧
  isEmpty twice = true ∧
  getWidth twice = 0 ∧ getHeight twice = 0 ∧ getNumSamples twice = 0.
Proof.
  intros Hlim Hasm Hslot Hheld Hothers Hdepth once twice.
  pose proof (assembled_coherent fb Hlim Hasm) as Hco.
  destruct Hlim as (Hg & Hm & Hds & Hdisj).
  destruct Hco as (H1 & H2 & H3 & H4 & H5 & H6 & H7 & H8 & H9).
  assert (Hsc : isSwapchain fb = false) by by apply isSwapchain_false.
  unfold getRenderBuffer, getDepthStencilBuffer in *. rewrite Hsc in *.
  cbn [negb andb] in *.
  rewrite (bool_decide_eq_true_2 (slot < getMaxNumRenderBuffers)) in Hheld by lia.
  assert (Hbit : Z.testbit (_buffersMask fb) slot = true).
  { specialize (H4 (Z.to_nat slot)). rewrite Z2Nat.id in H4 by lia.
    rewrite H4, Hheld by lia. apply bool_decide_eq_true. eauto. }
  assert (Hfull : isEmpty fb = false).
  { unfold isEmpty. apply bool_decide_eq_false. intros Hz.
    by rewrite Hz, Z.testbit_0_l in Hbit. }
  set (mask := wrap_int (Z.shiftl 1 slot)).
  set (cleared := Z.land (_buffersMask fb) (wrap_uint32 (Z.lnot mask))).
  assert (Hcleared : cleared = 0).
  { apply Z.bits_inj'. intros b _. rewrite Z.testbit_0_l.
    pose proof (mask_after_render (_buffersMask fb) slot b None ltac:(lia)) as Hb.
    cbv zeta in Hb. fold mask in Hb. fold cleared in Hb. rewrite Hb.
    destruct (decide (0 ≤ b < 32)) as [Hrange|]; [|done].
    destruct (decide (b = slot)) as [|Hne].
    { apply bool_decide_eq_false. by intros [? ?]. }
    destruct (Z.testbit (_buffersMask fb) b) eqn:Hset; [|done].
    destruct (H7 b Hset) as [Hlow|Hhigh].
    - specialize (Hothers b ltac:(lia) Hne).
      rewrite (bool_decide_eq_true_2 (b < getMaxNumRenderBuffers)) in Hothers by lia.
      specialize (H4 (Z.to_nat b)). rewrite Z2Nat.id in H4 by lia.
      rewrite H4, Hothers in Hset by lia.
      apply bool_decide_eq_true in Hset as [? ?]. done.
    - rewrite (H6 b Hhigh), Hdepth in Hset.
      apply bool_decide_eq_true in Hset as [? ?]. done. }
  assert (Href : refused getMaxNumRenderBuffers fb slot None = false).
  { unfold refused. rewrite Hsc.
    by rewrite (bool_decide_eq_false_2 (getMaxNumRenderBuffers ≤ slot)) by lia. }
  assert (Honce : once = MkFramebuffer None (_frameCount fb)
                           (<[Z.to_nat slot := None]> (_renderBuffers fb))
                           (<[Z.to_nat slot := 0]> (_renderBuffersSubresource fb))
                           (_depthStencilBuffer fb) (_depthStencilBufferSubresource fb)
                           0 (_width fb) (_height fb) (_numSamples fb)).
  { unfold once. rewrite setRenderBuffer_accepted by done. cbn [snd]. cbv zeta.
    fold mask. fold cleared. rewrite Hcleared, H1.
    unfold updateSize. rewrite Hfull. done. }
  assert (Htwice : twice = MkFramebuffer None (_frameCount fb)
                           (<[Z.to_nat slot := None]> (_renderBuffers fb))
                           (<[Z.to_nat slot := 0]> (_renderBuffersSubresource fb))
                           (_depthStencilBuffer fb) (_depthStencilBufferSubresource fb)
                           0 0 0 0).
  { unfold twice. rewrite Honce. rewrite setRenderBuffer_accepted; cycle 1.
    { unfold refused, isSwapchain. cbn [_swapchain].
      rewrite (bool_decide_eq_false_2 (None ≠ None)) by (intros Hne; by apply Hne).
      by rewrite (bool_decide_eq_false_2 (getMaxNumRenderBuffers ≤ slot)) by lia. }
    cbn [snd]. cbv zeta.
    unfold updateSize, isEmpty.
    cbn [_swapchain _frameCount _renderBuffers _renderBuffersSubresource
         _depthStencilBuffer _depthStencilBufferSubresource _buffersMask].
    rewrite (bool_decide_eq_true_2 (0 = 0)) by done.
    cbn [negb set_size _width _height _numSamples].
    rewrite !list_insert_insert_eq. by rewrite Z.land_0_l. }
  rewrite Htwice, Honce.
  unfold isEmpty, getWidth, getHeight, getNumSamples.
  cbn [_swapchain _buffersMask _width _height _numSamples]. rewrite H1.
  split_and!; done.
Qed.

End FramebufferAssembly.

(** * Further properties of the RepeatedValueStreamer *)

Section StreamerSessions.

Context {T : Type} `{Countable T}.
Implicit Types (s w r : RepeatedValueStreamer T) (v : T) (o id : Z).
Implicit Types (vs seen : list T).

Import RVS.

(** A read leaves the writing side of a streamer alone. *)
Lemma op_read_frame s (wi : list (Item T)) x s' (wi' : list (Item T)) :
  op_read s wi = Some (x, s', wi') →
  _lastPersistentID s' = _lastPersistentID s ∧
  _lastTransientOffset s' = _lastTransientOffset s ∧
  _persistentIDs s' = _persistentIDs s ∧
  _transientOffsets s' = _transientOffsets s.
Proof.
  rewrite op_read_unfold.
  destruct wi as [|[id|?] wi0]; [done| |done].
  destruct (_values s !! id).
  - by intros [= <- <- <-].
  - destruct wi0 as [|[?|y] wi1]; [done|done|]. by intros [= <- <- <-].
Qed.

(** No operation registers a persistent ID. *)
Lemma reachable_no_persistent s :
  reachable s → _persistentIDs s = ∅ ∧ _lastPersistentID s = 0.
Proof.
  induction 1 as [|s v _ [IHp IHl] _|s wi v s' wi' _ [IHp IHl] Hread|s _ [IHp IHl]].
  - done.
  - destruct (op_write_frame s v) as (-> & -> & _). done.
  - destruct (op_read_frame _ _ _ _ _ Hread) as (-> & _ & -> & _). done.
  - done.
Qed.

Lemma numbered_NoDup seen s : numbered seen s → NoDup seen.
Proof.
  intros [_ Hnum]. apply NoDup_alt. intros i j v Hi Hj.
  assert (Hoi : _transientOffsets s !! v = Some (Z.of_nat (S i))) by (apply Hnum; eauto).
  assert (Hoj : _transientOffsets s !! v = Some (Z.of_nat (S j))) by (apply Hnum; eauto).
  rewrite Hoi in Hoj. injection Hoj. lia.
Qed.

(** One write keeps the numbering, a new value going to the end. *)
Lemma numbered_op_write seen s v :
  well_formed s →
  hash_value (_persistentIDs s) v = 0 →
  (v ∉ seen → has_room s) →
  numbered seen s →
  numbered (if decide (v ∈ seen) then seen else seen ++ [v]) (op_write s v).1.
Proof.
  intros Hwf Hp0 Hroom Hnum.
  assert (Hwf' := Hwf). destruct Hwf' as (Hp & Ht & Hm & Htab).
  destruct (_transientOffsets s !! v) as [o|] eqn:Ho.
  - assert (Hin : v ∈ seen) by (apply (numbered_elem_of seen s v Hnum); eauto).
    rewrite decide_True by done.
    pose proof (Htab v o Ho) as Hrange.
    rewrite (op_write_repeat s v o); [done|done|by apply hash_value_Some|lia].
  - assert (Hnotin : v ∉ seen).
    { intros Hin. apply (numbered_elem_of seen s v Hnum) in Hin as [? ?]. congruence. }
    rewrite decide_False by done.
    specialize (Hroom Hnotin). unfold has_room in Hroom.
    destruct Hnum as [Hlen Hnum].
    rewrite (op_write_new s v); [|done|by apply hash_value_None].
    rewrite wrap_int_id by (unfold INT_MAX in *; lia).
    split; simpl.
    + rewrite length_app. simpl. lia.
    + intros u p. destruct (decide (v = u)) as [<-|Hne].
      * rewrite lookup_insert_eq. split.
        -- intros [= <-]. exists (length seen). split; [|lia].
           rewrite lookup_app_r by lia. by rewrite Nat.sub_diag.
        -- intros (n & Hn & ->). f_equal.
           destruct (decide (n < length seen)%nat) as [Hlt|Hge].
           ++ rewrite lookup_app_l in Hn by done.
              assert (is_Some (_transientOffsets s !! v)) as [? ?]; [|congruence].
              exists (Z.of_nat (S n)). apply Hnum. eauto.
           ++ apply lookup_lt_Some in Hn. rewrite length_app in Hn. simpl in Hn. lia.
      * rewrite lookup_insert_ne by done. rewrite Hnum. split.
        -- intros (n & Hn & ->). exists n. split; [|done].
           by apply lookup_app_l_Some.
        -- intros (n & Hn & ->). exists n. split; [|done].
           apply lookup_app_Some in Hn as [Hn|[_ Hn]]; [done|].
           apply list_lookup_singleton_Some in Hn as [_ ?]. done.
Qed.

Lemma reachable_numbered s : reachable s → ∃ seen, numbered seen s.
Proof.
  induction 1 as [|s v Hreach [seen IH] Hroom|s wi v s' wi' _ [seen IH] Hread|s _ _].
  - exists []. apply numbered_construct.
  - eexists. apply (numbered_op_write seen); [|  |done|done].
    + by apply reachable_well_formed.
    + destruct (reachable_no_persistent s Hreach) as [-> _]. by apply hash_value_None.
  - exists seen. destruct (op_read_frame _ _ _ _ _ Hread) as (_ & Hlto & _ & Htr).
    destruct IH as [Hlen Hnum]. split; [by rewrite Hlto|]. intros u p. by rewrite Htr.
  - exists []. split; [done|]. intros u p. simpl. rewrite lookup_empty. split; [done|].
    by intros (n & Hn & _).
Qed.

(** X1. Whatever a caller does with a constructed streamer, it holds no
    persistent ID, and its transient table pairs the values written since
    the last harvest with the offsets 1 .. [_lastTransientOffset], each offset
    with one value. *)
Theorem transient_offsets_are_a_numbering s :
  reachable s →
  _persistentIDs s = ∅ ∧
  _lastPersistentID s = 0 ∧
  (∀ u v o, _transientOffsets s !! u = Some o → _transientOffsets s !! v = Some o → u = v) ∧
  (∀ o, 1 ≤ o ≤ _lastTransientOffset s ↔ ∃ v, _transientOffsets s !! v = Some o).
Proof.
  intros Hreach. destruct (reachable_no_persistent s Hreach) as [Hp Hl].
  destruct (reachable_numbered s Hreach) as [seen Hnum].
  pose proof (numbered_NoDup seen s Hnum) as Hnd. destruct Hnum as [Hlen Hnum].
  split_and!; [done|done| |].
  - intros u v o Hu Hv. apply Hnum in Hu as (i & Hi & ->). apply Hnum in Hv as (j & Hj & Hij).
    assert (i = j) as -> by lia. congruence.
  - intros o. split.
    + intros Ho. destruct (lookup_lt_is_Some_2 seen (Z.to_nat (o - 1))) as [v Hv]; [lia|].
      exists v. apply Hnum. exists (Z.to_nat (o - 1)). split; [done|lia].
    + intros [v Hv]. apply Hnum in Hv as (n & Hn & ->).
      apply lookup_lt_Some in Hn. lia.
Qed.

Lemma first_seen_from_prefix vs : ∀ seen, ∃ more, first_seen_from seen vs = seen ++ more.
Proof.
  induction vs as [|v vs IH]; intros seen.
  - exists []. simpl. by rewrite app_nil_r.
  - rewrite first_seen_from_cons. destruct (decide (v ∈ seen)); [apply IH|].
    destruct (IH (seen ++ [v])) as [more ->]. exists ([v] ++ more). by rewrite app_assoc.
Qed.

(** A run of writes keeps the numbering. *)
Lemma numbered_write_all vs : ∀ seen s,
  well_formed s →
  (∀ v, hash_value (_persistentIDs s) v = 0) →
  _lastPersistentID s + Z.of_nat (length (first_seen_from seen vs)) ≤ INT_MAX →
  numbered seen s →
  numbered (first_seen_from seen vs) (write_all s vs).1 ∧ well_formed (write_all s vs).1.
Proof.
  induction vs as [|v vs IH]; intros seen s Hwf Hp Hbound Hnum; [done|].
  rewrite first_seen_from_cons in Hbound |- *. rewrite write_all_cons. cbn [fst].
  assert (Hroom : v ∉ seen → has_room s).
  { intros Hnotin. rewrite decide_False in Hbound by done.
    unfold has_room. destruct Hnum as [Hlen _].
    pose proof (first_seen_from_length vs (seen ++ [v])) as Hle.
    rewrite length_app in Hle. simpl in Hle. lia. }
  pose proof (numbered_op_write seen s v Hwf (Hp v) Hroom Hnum) as Hnum1.
  destruct (op_write_frame s v) as (Hlp1 & Hpers1 & _).
  apply IH; [| |by rewrite Hlp1|done].
  - destruct (decide (v ∈ seen)) as [Hin|Hnotin].
    + destruct (numbered_elem_of seen s v Hnum) as [Hsome _].
      destruct (Hsome Hin) as [o Ho].
      destruct Hwf as (? & ? & ? & Htab). pose proof (Htab v o Ho).
      rewrite (op_write_repeat s v o); [done|done|by apply hash_value_Some|lia].
    + by apply well_formed_write; [|apply Hroom].
  - intros u. rewrite Hpers1. apply Hp.
Qed.

(** X2. Harvesting after any sequence of writes on a constructed streamer
    returns the distinct values of the sequence, each with its rank of first
    occurrence counted from one, and nothing else: as many entries as there
    are distinct values. *)
Theorem harvest_numbers_first_occurrences vs :
  Z.of_nat (length (first_seen vs)) ≤ INT_MAX →
  let harvest := (getAndResetTransientOffsets (write_all construct vs).1).1 in
  (∀ v o, harvest !! v = Some o ↔
     ∃ n : nat, first_seen vs !! n = Some v ∧ o = Z.of_nat (S n)) ∧
  size harvest = length (first_seen vs).
Proof.
  intros Hbound harvest.
  destruct (numbered_write_all vs [] construct) as [Hnum _].
  { apply well_formed_construct. }
  { intros v. by apply hash_value_None. }
  { simpl. fold (first_seen vs). lia. }
  { apply numbered_construct. }
  fold (first_seen vs) in Hnum.
  pose proof (numbered_NoDup _ _ Hnum) as Hnd. destruct Hnum as [_ Hnum].
  split; [exact Hnum|].
  rewrite <- size_dom, <- (size_list_to_set (C := gset T) (first_seen vs)) by done.
  f_equal. apply set_eq. intros v.
  rewrite elem_of_dom, elem_of_list_to_set, list_elem_of_lookup. unfold harvest. simpl.
  split.
  - intros [o Ho]. apply Hnum in Ho as (n & Hn & _). eauto.
  - intros [n Hn]. exists (Z.of_nat (S n)). apply Hnum. eauto.
Qed.

(** What a write emits and does to the writing side depends on the writing
    side alone. *)
Lemma write_all_same_writer vs : ∀ s1 s2,
  _lastPersistentID s1 = _lastPersistentID s2 →
  _lastTransientOffset s1 = _lastTransientOffset s2 →
  _persistentIDs s1 = _persistentIDs s2 →
  _transientOffsets s1 = _transientOffsets s2 →
  (write_all s1 vs).2 = (write_all s2 vs).2 ∧
  _lastTransientOffset (write_all s1 vs).1 = _lastTransientOffset (write_all s2 vs).1 ∧
  _transientOffsets (write_all s1 vs).1 = _transientOffsets (write_all s2 vs).1.
Proof.
  induction vs as [|v vs IH]; intros s1 s2 Hlp Hlto Hpers Htr; [done|].
  rewrite !write_all_cons. cbn [fst snd].
  assert (Hone : (op_write s1 v).2 = (op_write s2 v).2 ∧
                 _lastPersistentID (op_write s1 v).1 = _lastPersistentID (op_write s2 v).1 ∧
                 _lastTransientOffset (op_write s1 v).1 = _lastTransientOffset (op_write s2 v).1 ∧
                 _persistentIDs (op_write s1 v).1 = _persistentIDs (op_write s2 v).1 ∧
                 _transientOffsets (op_write s1 v).1 = _transientOffsets (op_write s2 v).1).
  { unfold op_write. rewrite Hlp, Hlto, Hpers, Htr.
    destruct (decide (hash_value (_persistentIDs s2) v = 0)); [|done].
    destruct (decide (hash_value (_transientOffsets s2) v = 0)); done. }
  destruct Hone as (-> & H1 & H2 & H3 & H4).
  destruct (IH _ _ H1 H2 H3 H4) as (-> & -> & ->). done.
Qed.

(** X3. A harvest starts a new session: from then on the streamer emits,
    for any sequence of values, what a newly constructed streamer emits, and
    numbers them alike. *)
Theorem harvest_restarts_the_writer s vs :
  reachable s →
  let harvested := (getAndResetTransientOffsets s).2 in
  (write_all harvested vs).2 = (write_all construct vs).2 ∧
  _lastTransientOffset (write_all harvested vs).1
    = _lastTransientOffset (write_all construct vs).1 ∧
  _transientOffsets (write_all harvested vs).1
    = _transientOffsets (write_all construct vs).1.
Proof.
  intros Hreach harvested.
  destruct (reachable_no_persistent s Hreach) as [Hp Hl].
  apply write_all_same_writer; simpl; done.
Qed.

(** A read never changes what the cache holds under an identifier. *)
Lemma op_read_keeps_cache s (wi : list (Item T)) x s' (wi' : list (Item T)) id v :
  op_read s wi = Some (x, s', wi') →
  _values s !! id = Some v → _values s' !! id = Some v.
Proof.
  rewrite op_read_unfold.
  destruct wi as [|[i|?] wi0]; [done| |done].
  destruct (_values s !! i) as [y|] eqn:Hi.
  - by intros [= <- <- <-].
  - destruct wi0 as [|[?|y] wi1]; [done|done|]. intros [= <- <- <-] Hid. simpl.
    rewrite lookup_insert_ne; [done|]. intros ->. congruence.
Qed.

(** X4. The cache of a reader only grows: an identifier that is in it stays
    there with its value through any run of reads, and a later read of that
    identifier returns the value, takes the identifier alone from the stream
    and changes nothing. *)
Theorem cache_keeps_its_bindings (n : nat) : ∀ s (wi : list (Item T)) vs s'
    (wi' : list (Item T)) id v,
  read_all s wi n = Some (vs, s', wi') →
  _values s !! id = Some v →
  _values s' !! id = Some v ∧
  ∀ rest : list (Item T), op_read s' (ItemID id :: rest) = Some (v, s', rest).
Proof.
  assert (Hkeep : ∀ (n : nat) s (wi : list (Item T)) vs s' (wi' : list (Item T)) id v,
             read_all s wi n = Some (vs, s', wi') →
             _values s !! id = Some v → _values s' !! id = Some v).
  { clear n. unfold read_all.
    induction n as [|n IH]; intros s wi vs s' wi' id v Hread Hid.
    - by injection Hread as <- <- <-.
    - cbn [read_all_from] in Hread.
      destruct (op_read_from take_id take_value s wi) as [[[x s1] w1]|] eqn:Hone; [|done].
      destruct (read_all_from take_id take_value s1 w1 n) as [[[vs1 s2] w2]|] eqn:Hmore;
        [|done].
      injection Hread as <- <- <-.
      eapply IH; [exact Hmore|]. by eapply op_read_keeps_cache. }
  intros s wi vs s' wi' id v Hread Hid.
  pose proof (Hkeep n s wi vs s' wi' id v Hread Hid) as Hid'.
  split; [done|]. intros rest. rewrite op_read_unfold. by rewrite Hid'.
Qed.

(** X5. A harvest makes the writer hand out identifier 1 again, but
    nothing empties the cache of a reader.  After a session that began with
    value [a], the writer harvested, a value [b] is written as identifier 1
    and the value; the reader of the first session answers with [a] and
    leaves the value [b] on the stream. *)
Theorem identifier_reuse_after_harvest (a b : T) vs (rest : list (Item T)) :
  Z.of_nat (length (first_seen (a :: vs))) ≤ INT_MAX →
  let session := write_all construct (a :: vs) in
  let harvested := (getAndResetTransientOffsets session.1).2 in
  (op_write harvested b).2 = [ItemID 1; ItemValue b] ∧
  ∃ r,
    read_all construct session.2 (length (a :: vs)) = Some (a :: vs, r, []) ∧
    op_read r ((op_write harvested b).2 ++ rest) = Some (a, r, ItemValue b :: rest).
Proof.
  intros Hbound session harvested.
  assert (Hout : (op_write harvested b).2 = [ItemID 1; ItemValue b]).
  { destruct (write_all_frame (a :: vs) construct) as (Hlp & Hpers & _).
    fold session in Hlp, Hpers. simpl in Hlp, Hpers.
    rewrite (op_write_new harvested b).
    - simpl. by rewrite Hlp.
    - unfold harvested. simpl. rewrite Hpers. by apply hash_value_None.
    - by apply hash_value_None. }
  split; [done|]. rewrite Hout.
  destruct (round_trip_from (a :: vs) construct construct [] [])
    as (r & Hread & _ & Hlock & Hnum & _).
  { apply well_formed_construct. }
  { apply lock_step_construct. }
  { apply numbered_construct. }
  { unfold first_seen in Hbound. change (_lastPersistentID construct) with 0. lia. }
  fold session in Hread, Hlock, Hnum. rewrite app_nil_r in Hread.
  exists r. split; [done|].
  assert (Hcached : _values r !! 1 = Some a).
  { destruct Hlock as (_ & Hfwd & _). destruct Hnum as [_ Hnum].
    destruct (write_all_frame (a :: vs) construct) as (Hlp & _).
    fold session in Hlp. simpl in Hlp. rewrite Hlp in Hfwd.
    change 1 with (0 + Z.of_nat 1). apply Hfwd, Hnum. exists 0%nat. split; [|done].
    rewrite first_seen_from_cons. rewrite decide_False by apply not_elem_of_nil.
    destruct (first_seen_from_prefix vs ([] ++ [a])) as [more ->]. done. }
  rewrite op_read_unfold. simpl. by rewrite Hcached.
Qed.

(** A run of writes, seen from the ID coder: the identifiers follow its
    pattern from any highest identifier that is not below the transient
    counter, one identifier goes out per write, and one value each time the
    counter moves. *)
Lemma write_all_session vs : ∀ s (h : Z),
  well_formed s →
  (∀ v, hash_value (_persistentIDs s) v = 0) →
  _lastPersistentID s = 0 →
  _lastTransientOffset s + Z.of_nat (length vs) ≤ INT_MAX →
  _lastTransientOffset s ≤ h →
  conforming h (write_all s vs).2 ∧
  _lastTransientOffset (write_all s vs).1
    = _lastTransientOffset s + Z.of_nat (count_values (write_all s vs).2) ∧
  count_ids (write_all s vs).2 = length vs ∧
  (count_values (write_all s vs).2 ≤ length vs)%nat.
Proof.
  induction vs as [|v vs IH]; intros s h Hwf Hp Hlp Hbound Hh.
  { simpl. unfold count_values, count_ids, wire_bits. simpl. split_and!; [done|lia|done|lia]. }
  rewrite write_all_cons. cbn [fst snd].
  assert (Hwf' := Hwf). destruct Hwf' as (_ & Ht & _ & Htab).
  cbn [length] in Hbound.
  assert (Hroom : has_room s) by (unfold has_room; lia).
  pose proof (well_formed_write s v Hwf Hroom) as Hwf1.
  destruct (op_write_frame s v) as (Hlp1 & Hpers1 & _).
  assert (Hp1 : ∀ u, hash_value (_persistentIDs (op_write s v).1) u = 0).
  { intros u. rewrite Hpers1. apply Hp. }
  rewrite Hlp in Hlp1.
  destruct (_transientOffsets s !! v) as [o|] eqn:Ho.
  - pose proof (Htab v o Ho) as Hrange.
    assert (Hw : op_write s v = (s, [ItemID o])).
    { rewrite (op_write_repeat s v o); [|done|by apply hash_value_Some|lia].
      rewrite Hlp, Z.add_0_l. by rewrite wrap_int_id by (unfold INT_MAX in *; lia). }
    rewrite Hw in *. cbn [fst snd app conforming].
    destruct (IH s h Hwf Hp Hlp ltac:(lia) Hh) as (Hc & Hcount & Hids & Hle).
    unfold count_values, count_ids, wire_bits in *. cbn [sum_list_with length].
    rewrite Z.max_l by lia. split_and!; [lia|lia|lia|done|lia|lia|lia].
  - assert (Hw : op_write s v =
                 (MkRepeatedValueStreamer (_lastPersistentID s) (_lastTransientOffset s + 1)
                    (_persistentIDs s)
                    (<[v := _lastTransientOffset s + 1]> (_transientOffsets s)) (_values s),
                  [ItemID (_lastTransientOffset s + 1); ItemValue v])).
    { rewrite (op_write_new s v); [|done|by apply hash_value_None].
      rewrite (wrap_int_id (_lastTransientOffset s + 1)) by (unfold INT_MAX in *; lia).
      rewrite Hlp, Z.add_0_l. by rewrite wrap_int_id by (unfold INT_MAX in *; lia). }
    rewrite Hw in *. cbn [fst snd app conforming _lastTransientOffset] in *.
    destruct (IH _ (Z.max h (_lastTransientOffset s + 1)) Hwf1 Hp1 Hlp1) as (Hc & Hcount & Hids & Hle).
    { cbn [_lastTransientOffset]. lia. }
    { cbn [_lastTransientOffset]. lia. }
    cbn [_lastTransientOffset] in Hcount.
    unfold count_values, count_ids, wire_bits in *. cbn [sum_list_with length].
    split_and!; [lia|lia|lia|done|lia|lia|lia].
Qed.

(** X6. A streamer a caller can get hands its ID coder only identifiers of
    the pattern Bitstream.h asks for, in every session: each is at least
    zero and at most one more than the highest so far, whatever the highest
    identifier of earlier sessions was, provided it is not below the
    transient counter. *)
Theorem writer_keeps_the_pattern_of_the_ID_coder s vs (h : Z) :
  reachable s →
  _lastTransientOffset s + Z.of_nat (length vs) ≤ INT_MAX →
  _lastTransientOffset s ≤ h →
  conforming h (write_all s vs).2.
Proof.
  intros Hreach Hbound Hh.
  destruct (reachable_no_persistent s Hreach) as [Hp Hl].
  apply write_all_session; try done.
  - by apply reachable_well_formed.
  - intros v. rewrite Hp. by apply hash_value_None.
Qed.

(** X7. Every write hands the ID coder exactly one identifier, and a full
    value goes out exactly as often as the transient counter moves: the
    values sent in a run are as many as the offsets handed out in it. *)
Theorem values_sent_are_offsets_handed_out s vs :
  reachable s →
  _lastTransientOffset s + Z.of_nat (length vs) ≤ INT_MAX →
  count_ids (write_all s vs).2 = length vs ∧
  _lastTransientOffset (write_all s vs).1
    = _lastTransientOffset s + Z.of_nat (count_values (write_all s vs).2) ∧
  (count_values (write_all s vs).2 ≤ length vs)%nat.
Proof.
  intros Hreach Hbound.
  destruct (reachable_no_persistent s Hreach) as [Hp Hl].
  destruct (write_all_session vs s (_lastTransientOffset s)) as (_ & Hcount & Hids & Hle);
    try done.
  - by apply reachable_well_formed.
  - intros v. rewrite Hp. by apply hash_value_None.
Qed.

End StreamerSessions.

(** * Instances

    The statements above at concrete streamers, identifiers and framebuffers:
    class names are strings, attribute pointers are addresses. *)

Section Instances.

Import RVS Examples.

Lemma well_formed_registered_zero : well_formed registered_zero.
Proof.
  unfold well_formed, registered_zero, INT_MAX. simpl.
  split_and!; try lia. intros v o. by rewrite lookup_empty.
Qed.

(** The ID coder of the spec, started with the highest identifier at zero,
    keeps the highest identifier fed to it. *)
Lemma fed_spec_coder (c h : Z) :
  fed Z IDStreamer.write 0 c h → c = h ∧ 0 ≤ h.
Proof.
  induction 1 as [|c h id _ [-> Hh] Hid Hmax]; [done|].
  unfold IDStreamer.write, IDStreamer.advance. simpl.
  case_decide; lia.
Qed.

(** Started there, it round-trips the identifiers of its pattern. *)
Lemma faithful_spec_coder : faithful_id_coder Z IDStreamer.write IDStreamer.read 0.
Proof.
  intros c h id rest Hfed Hid _.
  apply fed_spec_coder in Hfed as [-> Hh]. apply read_write; lia.
Qed.

Lemma faithful_bool : faithful_value_encoding bool_write bool_read.
Proof. by intros b rest. Qed.

(** C1 on three one-bit values, through the ID coder of the spec. *)
Lemma round_trip_lock_step_witness :
  faithful_id_coder Z IDStreamer.write IDStreamer.read 0 ∧
  faithful_value_encoding bool_write bool_read ∧
  Z.of_nat (length (first_seen flags)) ≤ INT_MAX ∧
  ∃ r,
    read_all_bits Z IDStreamer.read bool_read construct 0
      ((encode Z IDStreamer.write bool_write 0 (write_all construct flags).2).2 ++ [])
      (length flags)
    = Some (flags, r, (2, [])).
Proof.
  assert (Hbound : Z.of_nat (length (first_seen flags)) ≤ INT_MAX)
    by (vm_compute; discriminate).
  destruct (round_trip_lock_step Z IDStreamer.write IDStreamer.read bool_write bool_read 0
              faithful_spec_coder faithful_bool flags [] Hbound) as (r & Hread & _).
  exact (conj faithful_spec_coder (conj faithful_bool (conj Hbound (ex_intro _ r Hread)))).
Defined.

(** The identifiers a constructed [RepeatedValueStreamer] hands to its ID
    coder start at one, which is one more than zero: the pattern of
    Bitstream.h, with the highest identifier starting at zero, and the state
    [faithful_spec_coder] starts the coder of the spec in.  In the state
    [IDStreamer.initial], where nothing is assigned and the width is zero,
    identifier 1 is read back as 0 and the two sides part. *)
Example first_identifier_on_the_coder_of_the_spec :
  (op_write (construct (T := string)) "A"%string).2 = [ItemID 1; ItemValue "A"%string] ∧
  IDStreamer.write IDStreamer.initial 1 = (IDStreamer.initial, []) ∧
  IDStreamer.read IDStreamer.initial (IDStreamer.write IDStreamer.initial 1).2
    = Some (0, 0, []).
Proof. split_and!; reflexivity. Qed.

(** C2 with the highest identifier at 3: three bits. *)
Lemma minimal_width_witness :
  -1 ≤ 3 ∧ length (IDStreamer.write 3 4).2 = 3%nat.
Proof.
  assert (Hk : -1 ≤ 3) by lia.
  split; [exact Hk|].
  exact (proj1 (minimal_width 3 4 [true; false; true] [0; 2] Hk)).
Defined.



(** C4 as it is worded fails for an entry that is zero: the value is in
    the persistent table, and still the write emits identifier 1, not 0,
    followed by the value, and hands out transient offset 1. *)
Lemma persistent_entry_zero_is_not_used :
  _persistentIDs registered_zero !! "A"%string = Some 0 ∧
  (op_write registered_zero "A"%string).2 = [ItemID 1; ItemValue "A"%string] ∧
  (op_write registered_zero "A"%string).2 ≠ [ItemID 0] ∧
  _transientOffsets (op_write registered_zero "A"%string).1 !! "A"%string = Some 1 ∧
  _transientOffsets registered_zero !! "A"%string = None ∧
  _lastTransientOffset (op_write registered_zero "A"%string).1 = 1 ∧
  _lastTransientOffset registered_zero = 0.
Proof. vm_compute. split_and!; try done. Qed.

(** C4, amended, for an entry that is five. *)
Lemma persistent_precedence_witness :
  _persistentIDs registered_five !! "A"%string = Some 5 ∧
  5 ≠ 0 ∧
  op_write registered_five "A"%string = (registered_five, [ItemID 5]).
Proof.
  assert (Hid : _persistentIDs registered_five !! "A"%string = Some 5) by reflexivity.
  assert (Hnz : 5 ≠ 0) by discriminate.
  exact (conj Hid (conj Hnz
           (proj1 (persistent_precedence registered_five "A"%string 5 Hid Hnz)))).
Defined.

(** C5 on the names ["A"] and ["B"]. *)
Lemma transient_harvest_witness :
  "A"%string ≠ "B"%string ∧
  (getAndResetTransientOffsets (write_all construct names).1).1
    = {["A"%string := 1; "B"%string := 2]}.
Proof.
  assert (Hne : "A"%string ≠ "B"%string) by discriminate.
  split; [exact Hne|].
  exact (proj1 (transient_harvest "A"%string "B"%string Hne)).
Defined.

(** C8 for a name registered with the persistent ID zero. *)
Lemma zero_is_absent_witness :
  well_formed registered_zero ∧
  has_room registered_zero ∧
  _persistentIDs registered_zero !! "A"%string = Some 0 ∧
  hash_value (_transientOffsets registered_zero) "A"%string = 0 ∧
  (op_write registered_zero "A"%string).2 = [ItemID 1; ItemValue "A"%string] ∧
  _transientOffsets (op_write registered_zero "A"%string).1 !! "A"%string = Some 1.
Proof.
  assert (Hwf : well_formed registered_zero) by apply well_formed_registered_zero.
  assert (Hroom : has_room registered_zero) by (vm_compute; reflexivity).
  assert (Hzero : _persistentIDs registered_zero !! "A"%string = Some 0) by reflexivity.
  assert (Hnew : hash_value (_transientOffsets registered_zero) "A"%string = 0)
    by reflexivity.
  destruct (zero_is_absent registered_zero "A"%string Hwf Hroom) as [Hsame _].
  destruct (Hsame Hzero) as (_ & _ & _ & Hfull).
  destruct (Hfull Hnew) as [Hout Hoff].
  exact (conj Hwf (conj Hroom (conj Hzero (conj Hnew (conj Hout Hoff))))).
Defined.


(** C9 on a framebuffer made by [create()] with eight slots. *)
Lemma getNumRenderBuffers_counts_empty_slots_witness :
  Z.of_nat (length (Framebuffer._renderBuffers (Framebuffer.create 8))) ≤ UINT32_MAX ∧
  Z.of_nat 8 ≤ UINT32_MAX ∧
  (Framebuffer.setRenderBuffer 8 (Framebuffer.create 8) 0 (Some texture_640x480) 0).1 ≠ -1 ∧
  Framebuffer._renderBuffers (Framebuffer.create 8) !! Z.to_nat 0 = Some None ∧
  Framebuffer.getNumRenderBuffers (Framebuffer.create 8) = 8 ∧
  Framebuffer.getNumRenderBuffers
    (Framebuffer.setRenderBuffer 8 (Framebuffer.create 8) 0 (Some texture_640x480) 0).2
  = 7.
Proof.
  assert (Hlen : Z.of_nat (length (Framebuffer._renderBuffers (Framebuffer.create 8)))
                 ≤ UINT32_MAX) by (vm_compute; discriminate).
  assert (Hmax : Z.of_nat 8 ≤ UINT32_MAX) by (vm_compute; discriminate).
  assert (Hok : (Framebuffer.setRenderBuffer 8 (Framebuffer.create 8) 0
                   (Some texture_640x480) 0).1 ≠ -1) by (vm_compute; discriminate).
  assert (Hslot : Framebuffer._renderBuffers (Framebuffer.create 8) !! Z.to_nat 0
                  = Some None) by reflexivity.
  destruct (getNumRenderBuffers_counts_empty_slots 8 8 (Framebuffer.create 8) 0
              texture_640x480 0 Hlen Hmax) as (_ & Hnew & Hattach).
  exact (conj Hlen (conj Hmax (conj Hok (conj Hslot (conj Hnew (Hattach Hok Hslot)))))).
Defined.

(** C10 for a texture attached to slot 0 of a new framebuffer. *)
Lemma setRenderBuffer_error_atomicity_witness :
  0 ≤ 0 ∧
  8 ≤ 32 ∧
  8 ≤ Z.of_nat (length (Framebuffer._renderBuffers (Framebuffer.create 8))) ∧
  8 ≤ Z.of_nat (length (Framebuffer._renderBuffersSubresource (Framebuffer.create 8))) ∧
  (Framebuffer.setRenderBuffer 8 (Framebuffer.create 8) 0 (Some texture_640x480) 3).1 = 0 ∧
  Framebuffer._renderBuffers
    (Framebuffer.setRenderBuffer 8 (Framebuffer.create 8) 0 (Some texture_640x480) 3).2
    !! Z.to_nat 0 = Some (Some texture_640x480).
Proof.
  assert (H0 : 0 ≤ 0) by lia.
  assert (H32 : 8 ≤ 32) by lia.
  assert (Hrb : 8 ≤ Z.of_nat (length (Framebuffer._renderBuffers (Framebuffer.create 8))))
    by (vm_compute; discriminate).
  assert (Hrbs : 8 ≤ Z.of_nat (length (Framebuffer._renderBuffersSubresource
                                        (Framebuffer.create 8))))
    by (vm_compute; discriminate).
  pose proof (setRenderBuffer_error_atomicity 8 (Framebuffer.create 8) 0
                (Some texture_640x480) 3) as Hcall.
  cbv zeta in Hcall.
  change (Framebuffer.refused 8 (Framebuffer.create 8) 0 (Some texture_640x480))
    with false in Hcall.
  destruct (Hcall H0 H32 Hrb Hrbs) as (Hret & Hstore & _).
  exact (conj H0 (conj H32 (conj Hrb (conj Hrbs (conj Hret Hstore))))).
Defined.

(** A slot that is not below the limit is refused, and nothing changes. *)
Example setRenderBuffer_slot_out_of_range :
  Framebuffer.setRenderBuffer 8 (Framebuffer.create 8) 8 (Some texture_640x480) 0
  = (-1, Framebuffer.create 8).
Proof. reflexivity. Qed.

End Instances.

(** * Further instances *)

Section FurtherInstances.

Import RVS Examples.

Lemma reachable_wrote_A : reachable wrote_A.
Proof.
  apply reachable_write; [apply reachable_construct|]. vm_compute. reflexivity.
Qed.

(** X1 for a streamer that has written one name. *)
Lemma transient_offsets_are_a_numbering_witness :
  reachable wrote_A ∧ _persistentIDs wrote_A = ∅ ∧ _lastPersistentID wrote_A = 0.
Proof.
  destruct (transient_offsets_are_a_numbering wrote_A reachable_wrote_A)
    as (Hp & Hl & _).
  exact (conj reachable_wrote_A (conj Hp Hl)).
Defined.

(** X2 on three names, two of them distinct. *)
Lemma harvest_numbers_first_occurrences_witness :
  Z.of_nat (length (first_seen names)) ≤ INT_MAX ∧
  size (getAndResetTransientOffsets (write_all construct names).1).1
  = length (first_seen names).
Proof.
  assert (Hbound : Z.of_nat (length (first_seen names)) ≤ INT_MAX)
    by (vm_compute; discriminate).
  exact (conj Hbound (proj2 (harvest_numbers_first_occurrences names Hbound))).
Defined.

(** X3 for a streamer that has written one name. *)
Lemma harvest_restarts_the_writer_witness :
  reachable wrote_A ∧
  (write_all (getAndResetTransientOffsets wrote_A).2 names).2
  = (write_all construct names).2.
Proof.
  exact (conj reachable_wrote_A
           (proj1 (harvest_restarts_the_writer wrote_A names reachable_wrote_A))).
Defined.

(** X4 for a reader that knows identifier 1 and meets identifier 2. *)
Lemma cache_keeps_its_bindings_witness :
  read_all cached_A [ItemID 2; ItemValue "B"%string; ItemID 1] 2
  = Some (["B"%string; "A"%string],
          MkRepeatedValueStreamer 0 0 ∅ ∅ (<[2 := "B"%string]> {[1 := "A"%string]}), []) ∧
  _values cached_A !! 1 = Some "A"%string ∧
  _values (MkRepeatedValueStreamer 0 0 ∅ ∅ (<[2 := "B"%string]> {[1 := "A"%string]})) !! 1
  = Some "A"%string.
Proof.
  assert (Hread : read_all cached_A [ItemID 2; ItemValue "B"%string; ItemID 1] 2
                  = Some (["B"%string; "A"%string],
                          MkRepeatedValueStreamer 0 0 ∅ ∅
                            (<[2 := "B"%string]> {[1 := "A"%string]}), []))
    by (vm_compute; reflexivity).
  assert (Hid : _values cached_A !! 1 = Some "A"%string) by reflexivity.
  exact (conj Hread (conj Hid
           (proj1 (cache_keeps_its_bindings 2 _ _ _ _ _ 1 "A"%string Hread Hid)))).
Defined.

(** X5 for a session of two names. *)
Lemma identifier_reuse_after_harvest_witness :
  Z.of_nat (length (first_seen ("A"%string :: ["B"%string]))) ≤ INT_MAX ∧
  (op_write (getAndResetTransientOffsets
               (write_all construct ("A"%string :: ["B"%string])).1).2 "B"%string).2
  = [ItemID 1; ItemValue "B"%string].
Proof.
  assert (Hbound : Z.of_nat (length (first_seen ("A"%string :: ["B"%string]))) ≤ INT_MAX)
    by (vm_compute; discriminate).
  exact (conj Hbound
           (proj1 (identifier_reuse_after_harvest "A"%string "B"%string ["B"%string] []
                     Hbound))).
Defined.

(** X6 for three more names after the first. *)
Lemma writer_keeps_the_pattern_of_the_ID_coder_witness :
  reachable wrote_A ∧
  _lastTransientOffset wrote_A + Z.of_nat (length names) ≤ INT_MAX ∧
  _lastTransientOffset wrote_A ≤ 1 ∧
  conforming 1 (write_all wrote_A names).2.
Proof.
  assert (Hbound : _lastTransientOffset wrote_A + Z.of_nat (length names) ≤ INT_MAX)
    by (vm_compute; discriminate).
  assert (Hh : _lastTransientOffset wrote_A ≤ 1) by (vm_compute; discriminate).
  exact (conj reachable_wrote_A (conj Hbound (conj Hh
           (writer_keeps_the_pattern_of_the_ID_coder wrote_A names 1
              reachable_wrote_A Hbound Hh)))).
Defined.

(** X7 for three more names after the first. *)
Lemma values_sent_are_offsets_handed_out_witness :
  reachable wrote_A ∧
  _lastTransientOffset wrote_A + Z.of_nat (length names) ≤ INT_MAX ∧
  count_ids (write_all wrote_A names).2 = length names.
Proof.
  assert (Hbound : _lastTransientOffset wrote_A + Z.of_nat (length names) ≤ INT_MAX)
    by (vm_compute; discriminate).
  exact (conj reachable_wrote_A (conj Hbound
           (proj1 (values_sent_are_offsets_handed_out wrote_A names
                     reachable_wrote_A Hbound)))).
Defined.

(** Eight slots, all of them bits of the mask, and the two top bits for the
    depth-stencil buffer. *)
Lemma limits_eight : Framebuffer.limits 8 8 depth_stencil_bits.
Proof.
  unfold Framebuffer.limits, depth_stencil_bits, UINT32_MAX. split_and!; try lia.
  intros b Hb.
  assert (Hcase : b = 0 ∨ b = 1 ∨ b = 2 ∨ b = 3 ∨ b = 4 ∨ b = 5 ∨ b = 6 ∨ b = 7) by lia.
  destruct Hcase as [->|[->|[->|[->|[->|[->|[->| ->]]]]]]]; reflexivity.
Qed.

Lemma assembled_coloured : Framebuffer.assembled 8 8 depth_stencil_bits coloured.
Proof.
  apply Framebuffer.assembled_setRenderBuffer; [apply Framebuffer.assembled_create|lia].
Qed.

Lemma assembled_create_textured :
  Framebuffer.assembled 8 8 depth_stencil_bits
    (Framebuffer.create_textured 8 8 depth_stencil_bits
       (Some texture_640x480) (Some depth_640x480)).
Proof.
  apply Framebuffer.assembled_setDepthStencilBuffer.
  apply Framebuffer.assembled_setRenderBuffer; [apply Framebuffer.assembled_create|lia].
Qed.

Lemma coloured_others (other : Z) :
  0 ≤ other → other ≠ 0 → Framebuffer.getRenderBuffer 8 coloured other = None.
Proof.
  intros Hother Hne.
  assert (Hcase : other = 1 ∨ other = 2 ∨ other = 3 ∨ other = 4 ∨ other = 5 ∨
                  other = 6 ∨ other = 7 ∨ 8 ≤ other) by lia.
  destruct Hcase as [->|[->|[->|[->|[->|[->|[->|Hout]]]]]]]; try reflexivity.
  unfold Framebuffer.getRenderBuffer.
  rewrite (bool_decide_eq_false_2 (other < 8)) by lia. by rewrite andb_false_r.
Qed.

(** X9 for a texture attached to slot 0 of a new framebuffer. *)
Lemma getRenderBuffer_after_setRenderBuffer_witness :
  Framebuffer.refused 8 (Framebuffer.create 8) 0 (Some texture_640x480) = false ∧
  0 ≤ 0 ∧
  8 ≤ Z.of_nat (length (Framebuffer._renderBuffers (Framebuffer.create 8))) ∧
  8 ≤ Z.of_nat (length (Framebuffer._renderBuffersSubresource (Framebuffer.create 8))) ∧
  Framebuffer.getRenderBuffer 8
    (Framebuffer.setRenderBuffer 8 (Framebuffer.create 8) 0 (Some texture_640x480) 3).2 0
  = Some texture_640x480.
Proof.
  assert (Href : Framebuffer.refused 8 (Framebuffer.create 8) 0 (Some texture_640x480)
                 = false) by reflexivity.
  assert (H0 : 0 ≤ 0) by lia.
  assert (Hrb : 8 ≤ Z.of_nat (length (Framebuffer._renderBuffers (Framebuffer.create 8))))
    by (vm_compute; discriminate).
  assert (Hrbs : 8 ≤ Z.of_nat (length (Framebuffer._renderBuffersSubresource
                                        (Framebuffer.create 8))))
    by (vm_compute; discriminate).
  exact (conj Href (conj H0 (conj Hrb (conj Hrbs
           (proj1 (getRenderBuffer_after_setRenderBuffer 8 (Framebuffer.create 8) 0
                     (Some texture_640x480) 3 Href H0 Hrb Hrbs)))))).
Defined.

(** X11 for slot 0 of a framebuffer that holds a colour texture. *)
Lemma mask_tells_what_is_attached_witness :
  Framebuffer.limits 8 8 depth_stencil_bits ∧
  Framebuffer.assembled 8 8 depth_stencil_bits coloured ∧
  0 ≤ 0 < 8 ∧
  Z.testbit (Framebuffer._buffersMask coloured) 0
  = bool_decide (is_Some (Framebuffer.getRenderBuffer 8 coloured 0)).
Proof.
  assert (Hslot : 0 ≤ 0 < 8) by lia.
  exact (conj limits_eight (conj assembled_coloured (conj Hslot
           (proj1 (mask_tells_what_is_attached 8 8 depth_stencil_bits coloured
                     limits_eight assembled_coloured) 0 Hslot)))).
Defined.

(** X12 for the depth-stencil texture of a framebuffer made with two textures. *)
Lemma attached_textures_share_the_size_witness :
  Framebuffer.limits 8 8 depth_stencil_bits ∧
  Framebuffer.assembled 8 8 depth_stencil_bits
    (Framebuffer.create_textured 8 8 depth_stencil_bits
       (Some texture_640x480) (Some depth_640x480)) ∧
  Framebuffer.getDepthStencilBuffer
    (Framebuffer.create_textured 8 8 depth_stencil_bits
       (Some texture_640x480) (Some depth_640x480)) = Some depth_640x480 ∧
  Texture.getWidth depth_640x480
  = Framebuffer.getWidth
      (Framebuffer.create_textured 8 8 depth_stencil_bits
         (Some texture_640x480) (Some depth_640x480)).
Proof.
  assert (Hd : Framebuffer.getDepthStencilBuffer
                 (Framebuffer.create_textured 8 8 depth_stencil_bits
                    (Some texture_640x480) (Some depth_640x480)) = Some depth_640x480)
    by (vm_compute; reflexivity).
  exact (conj limits_eight (conj assembled_create_textured (conj Hd
           (proj1 (proj2 (attached_textures_share_the_size 8 8 depth_stencil_bits _
                            limits_eight assembled_create_textured depth_640x480
                            (or_intror Hd))))))).
Defined.

(** X13 for a framebuffer that holds a colour texture. *)
Lemma removeRenderBuffers_empties_the_mask_only_witness :
  Framebuffer.limits 8 8 depth_stencil_bits ∧
  Framebuffer.assembled 8 8 depth_stencil_bits coloured ∧
  Framebuffer.getDepthStencilBuffer coloured = None ∧
  Framebuffer.isEmpty (Framebuffer.removeRenderBuffers depth_stencil_bits coloured) = true.
Proof.
  assert (Hd : Framebuffer.getDepthStencilBuffer coloured = None) by reflexivity.
  exact (conj limits_eight (conj assembled_coloured (conj Hd
           (proj1 (removeRenderBuffers_empties_the_mask_only 8 8 depth_stencil_bits
                     coloured limits_eight assembled_coloured Hd))))).
Defined.

(** X14 for a framebuffer on a swapchain. *)
Lemma swapchain_is_left_alone_witness :
  Framebuffer._swapchain on_screen = Some swapchain_800x600 ∧
  Framebuffer.setRenderBuffer 8 on_screen 0 (Some texture_640x480) 0 = (-1, on_screen).
Proof.
  assert (Hsc : Framebuffer._swapchain on_screen = Some swapchain_800x600) by reflexivity.
  exact (conj Hsc
           (proj1 (swapchain_is_left_alone 8 depth_stencil_bits on_screen
                     swapchain_800x600 0 (Some texture_640x480) 0 Hsc))).
Defined.

(** X15 for a new framebuffer. *)
Lemma first_texture_gives_the_size_witness :
  Framebuffer.isSwapchain (Framebuffer.create 8) = false ∧
  Framebuffer.isEmpty (Framebuffer.create 8) = true ∧
  Texture.getType texture_640x480 ≠ Texture.TEX_1D ∧
  0 ≤ 0 < 8 ∧
  0 ≤ INT_MAX ∧
  (Framebuffer.setRenderBuffer 8 (Framebuffer.create 8) 0 (Some texture_640x480) 0).1 = 0.
Proof.
  assert (Hsc : Framebuffer.isSwapchain (Framebuffer.create 8) = false) by reflexivity.
  assert (Hempty : Framebuffer.isEmpty (Framebuffer.create 8) = true) by reflexivity.
  assert (H1d : Texture.getType texture_640x480 ≠ Texture.TEX_1D) by discriminate.
  assert (Hslot : 0 ≤ 0 < 8) by lia.
  assert (Hint : 0 ≤ INT_MAX) by (vm_compute; discriminate).
  exact (conj Hsc (conj Hempty (conj H1d (conj Hslot (conj Hint
           (proj1 (first_texture_gives_the_size 8 depth_stencil_bits
                     (Framebuffer.create 8) 0 texture_640x480 0
                     Hsc Hempty H1d Hslot Hint))))))).
Defined.

(** X16 for two textures of 640 by 480. *)
Lemma create_textured_attaches_both_witness :
  Framebuffer.limits 8 8 depth_stencil_bits ∧
  0 < 8 ∧
  Texture.getType texture_640x480 ≠ Texture.TEX_1D ∧
  Texture.getType depth_640x480 ≠ Texture.TEX_1D ∧
  Texture.getWidth depth_640x480 = Texture.getWidth texture_640x480 ∧
  Texture.getHeight depth_640x480 = Texture.getHeight texture_640x480 ∧
  Texture.getNumSamples depth_640x480 = Texture.getNumSamples texture_640x480 ∧
  Framebuffer.getRenderBuffer 8
    (Framebuffer.create_textured 8 8 depth_stencil_bits
       (Some texture_640x480) (Some depth_640x480)) 0 = Some texture_640x480.
Proof.
  assert (Hpos : 0 < 8) by lia.
  assert (Hc : Texture.getType texture_640x480 ≠ Texture.TEX_1D) by discriminate.
  assert (Hd : Texture.getType depth_640x480 ≠ Texture.TEX_1D) by discriminate.
  assert (Hw : Texture.getWidth depth_640x480 = Texture.getWidth texture_640x480)
    by reflexivity.
  assert (Hh : Texture.getHeight depth_640x480 = Texture.getHeight texture_640x480)
    by reflexivity.
  assert (Hn : Texture.getNumSamples depth_640x480 = Texture.getNumSamples texture_640x480)
    by reflexivity.
  exact (conj limits_eight (conj Hpos (conj Hc (conj Hd (conj Hw (conj Hh (conj Hn
           (proj1 (create_textured_attaches_both 8 8 depth_stencil_bits
                     texture_640x480 depth_640x480
                     limits_eight Hpos Hc Hd Hw Hh Hn))))))))).
Defined.

(** X17 for a texture attached twice to slot 0: the second call returns
    slot 0 and the texture is in it. *)
Lemma setRenderBuffer_again_witness :
  Framebuffer.refused 8 (Framebuffer.create 8) 0 (Some texture_640x480) = false ∧
  0 ≤ 0 ∧
  8 ≤ 32 ∧
  8 ≤ Z.of_nat (length (Framebuffer._renderBuffers (Framebuffer.create 8))) ∧
  (Framebuffer.setRenderBuffer 8 coloured 0 (Some texture_640x480) 0).1 = 0 ∧
  (Framebuffer.setRenderBuffer 8 coloured 0 (Some texture_640x480) 0).2 = coloured ∧
  Framebuffer.getRenderBuffer 8
    (Framebuffer.setRenderBuffer 8 coloured 0 (Some texture_640x480) 0).2 0
  = Some texture_640x480.
Proof.
  assert (Href : Framebuffer.refused 8 (Framebuffer.create 8) 0 (Some texture_640x480)
                 = false) by reflexivity.
  assert (H0 : 0 ≤ 0) by lia.
  assert (H32 : 8 ≤ 32) by lia.
  assert (Hrb : 8 ≤ Z.of_nat (length (Framebuffer._renderBuffers (Framebuffer.create 8))))
    by (vm_compute; discriminate).
  destruct (setRenderBuffer_again 8 (Framebuffer.create 8) 0 texture_640x480 0
              Href H0 H32) as (_ & _ & Hret & Hsame & _ & Hheld).
  exact (conj Href (conj H0 (conj H32 (conj Hrb (conj Hret (conj Hsame (Hheld Hrb))))))).
Defined.

(** X18 for a framebuffer whose only texture is in slot 0. *)
Lemma size_outlives_the_last_texture_witness :
  Framebuffer.limits 8 8 depth_stencil_bits ∧
  Framebuffer.assembled 8 8 depth_stencil_bits coloured ∧
  0 ≤ 0 < 8 ∧
  Framebuffer.getRenderBuffer 8 coloured 0 = Some texture_640x480 ∧
  Framebuffer.getDepthStencilBuffer coloured = None ∧
  Framebuffer.isEmpty (Framebuffer.setRenderBuffer 8 coloured 0 None 0).2 = true ∧
  Framebuffer.getWidth (Framebuffer.setRenderBuffer 8 coloured 0 None 0).2
  = Framebuffer.getWidth coloured.
Proof.
  assert (Hslot : 0 ≤ 0 < 8) by lia.
  assert (Hheld : Framebuffer.getRenderBuffer 8 coloured 0 = Some texture_640x480)
    by reflexivity.
  assert (Hd : Framebuffer.getDepthStencilBuffer coloured = None) by reflexivity.
  destruct (size_outlives_the_last_texture 8 8 depth_stencil_bits coloured 0
              texture_640x480 limits_eight assembled_coloured Hslot Hheld
              coloured_others Hd) as (Hempty & Hw & _).
  exact (conj limits_eight (conj assembled_coloured (conj Hslot (conj Hheld (conj Hd
           (conj Hempty Hw)))))).
Defined.

End FurtherInstances.
